(** * Scoring engine of the Tofico Syrup DSS backend (src/main.py)

    A shallow embedding of the two analysis endpoints of [main.py],
    [calculate_saw] (Simple Additive Weighting) and [calculate_wp]
    (Weighted Product), together with the three SQLite tables they read.

    Numbers.  The columns [weight] and [value] are SQLite [REAL]s, Python
    floats at run time.  The embedding uses exact rationals ([Q]): sums,
    products, quotients, comparisons and decimal rounding are the exact ones.
    Float rounding error, infinities and NaN are therefore outside the model,
    and so is the overflow of [*], [+] and [/], which gives an infinity and
    raises nothing.  The overflow of [math.pow] raises OverflowError and is
    inside the model, with everything that depends on the control flow, on
    the order of the data and on the other Python exceptions. *)

From Stdlib Require Import QArith Qround Qabs ZArith Lqa.
From stdpp Require Import gmap strings list fin_maps sorting.

Local Open Scope Q_scope.
Local Open Scope string_scope.

(** ** Python exceptions and the error monad *)

Inductive py_exn : Type :=
| KeyError
| ValueError
| ZeroDivisionError
| OverflowError.

Inductive result (A : Type) : Type :=
| Ok (a : A)
| Raise (e : py_exn).
Arguments Ok {A} a.
Arguments Raise {A} e.

#[global] Instance result_ret : MRet result := fun _ a => Ok a.

#[global] Instance result_bind : MBind result := fun _ _ k r =>
  match r with
  | Ok a => k a
  | Raise e => Raise e
  end.

Definition returns {A : Type} (r : result A) : Prop := exists a, r = Ok a.

(** ** Numbers *)

Definition Qltb (x y : Q) : bool := negb (Qle_bool y x).

(** [x / y] on floats raises ZeroDivisionError on a zero divisor. *)
Definition py_div (x y : Q) : result Q :=
  if Qeq_bool y 0 then Raise ZeroDivisionError else Ok (x / y).

(** Where a double overflows: a result whose magnitude reaches
    2^1024 - 2^970, half a unit in the last place above the largest finite
    double 2^1024 - 2^971, rounds to an infinity. *)
Definition float_overflow : Q := inject_Z (2 ^ 1024 - 2 ^ 970).

(** The result of a function of the [math] module whose exact value is [r]:
    "math range error" when it overflows. *)
Definition math_result (r : Q) : result Q :=
  if Qle_bool float_overflow (Qabs r) then Raise OverflowError else Ok r.

(** Rounding to the nearest integer, ties to the even one. *)
Definition round_half_even (q : Q) : Z :=
  let f := Qfloor q in
  let r := q - inject_Z f in
  if Qltb r (1 # 2) then f
  else if Qltb (1 # 2) r then (f + 1)%Z
  else if Z.even f then f else (f + 1)%Z.

(** [round(x, 4)]: to the nearest multiple of 0.0001, ties to the even one. *)
Definition round4 (q : Q) : Q := Qmake (round_half_even (q * 10000)) 10000.

(** [max(values)] and [min(values)]: the first extremal item is kept, and an
    empty sequence raises ValueError. *)
Fixpoint max_from (cur : Q) (l : list Q) : Q :=
  match l with
  | [] => cur
  | x :: l' => max_from (if Qltb cur x then x else cur) l'
  end.

Fixpoint min_from (cur : Q) (l : list Q) : Q :=
  match l with
  | [] => cur
  | x :: l' => min_from (if Qltb x cur then x else cur) l'
  end.

Definition py_max (l : list Q) : result Q :=
  match l with
  | [] => Raise ValueError
  | x :: l' => Ok (max_from x l')
  end.

Definition py_min (l : list Q) : result Q :=
  match l with
  | [] => Raise ValueError
  | x :: l' => Ok (min_from x l')
  end.

(** ** The database: tables [locations], [criteria], [location_criteria] *)

Record location_row : Type := {
  loc_id : Z;
  loc_name : string;
  loc_address : string;
  loc_latitude : Q;
  loc_longitude : Q
}.

Record criterion_row : Type := {
  crit_id : string;
  crit_name : string;
  crit_weight : Q;
  crit_type : string
}.

Record lc_row : Type := {
  lc_location_id : Z;
  lc_criteria_id : string;
  lc_value : Q
}.

Record database : Type := {
  locations : list location_row;
  criteria : list criterion_row;
  location_criteria : list lc_row
}.

(** [SELECT location_id, value FROM location_criteria WHERE criteria_id = ?],
    then [[row['value'] for row in c.fetchall()]]. *)
Definition criterion_values (db : database) (cid : string) : list Q :=
  map lc_value
    (List.filter (fun r => String.eqb (lc_criteria_id r) cid) (location_criteria db)).

(** [SELECT value FROM location_criteria WHERE location_id = ? AND
    criteria_id = ?], then [c.fetchone()]. *)
Definition fetch_value (db : database) (lid : Z) (cid : string) : option Q :=
  match List.filter (fun r => Z.eqb (lc_location_id r) lid && String.eqb (lc_criteria_id r) cid)
          (location_criteria db) with
  | [] => None
  | r :: _ => Some (lc_value r)
  end.

(** [value = value['value'] if value else 0] *)
Definition value_of (db : database) (lid : Z) (cid : string) : Q :=
  match fetch_value db lid cid with
  | Some v => v
  | None => 0
  end.

(** ** SAW *)

(** Lines 260-263: the two normalisation formulas. *)
Definition normalize (ctype : string) (value max_value min_value : Q) : result Q :=
  if String.eqb ctype "benefit" then
    if Qltb 0 max_value then py_div value max_value else Ok 0
  else
    if Qltb 0 min_value && Qltb 0 value then py_div min_value value else Ok 0.

(** Lines 251-263: the loop over the locations for one criterion.
    [normalized_matrix] is a dict of dicts. *)
Fixpoint saw_locations (db : database) (criterion : criterion_row)
    (max_value min_value : Q) (locs : list location_row)
    (normalized_matrix : gmap Z (gmap string Q)) : result (gmap Z (gmap string Q)) :=
  match locs with
  | [] => Ok normalized_matrix
  | loc :: rest =>
      let value := value_of db (loc_id loc) (crit_id criterion) in
      let nm1 :=
        match normalized_matrix !! loc_id loc with
        | None => <[loc_id loc := ∅]> normalized_matrix
        | Some _ => normalized_matrix
        end in
      n ← normalize (crit_type criterion) value max_value min_value;
      match nm1 !! loc_id loc with
      | None => Raise KeyError
      | Some row =>
          saw_locations db criterion max_value min_value rest
            (<[loc_id loc := <[crit_id criterion := n]> row]> nm1)
      end
  end.

(** Lines 241-249: the bounds of one criterion, [None] standing for the
    [continue] of line 246. *)
Definition saw_bounds (db : database) (cid : string) : result (option (Q * Q)) :=
  let values := criterion_values db cid in
  match values with
  | [] => Ok None
  | _ :: _ =>
      max_value ← py_max values;
      min_value ← py_min values;
      Ok (Some (max_value, min_value))
  end.

(** Lines 240-263: the loop over the criteria. *)
Fixpoint saw_criteria (db : database) (crits : list criterion_row)
    (normalized_matrix : gmap Z (gmap string Q)) : result (gmap Z (gmap string Q)) :=
  match crits with
  | [] => Ok normalized_matrix
  | criterion :: rest =>
      bounds ← saw_bounds db (crit_id criterion);
      match bounds with
      | None => saw_criteria db rest normalized_matrix
      | Some (max_value, min_value) =>
          nm ← saw_locations db criterion max_value min_value (locations db)
                  normalized_matrix;
          saw_criteria db rest nm
      end
  end.

Definition saw_matrix (db : database) : result (gmap Z (gmap string Q)) :=
  saw_criteria db (criteria db) ∅.

Record saw_record : Type := {
  saw_location : string;
  saw_score : Q;
  saw_details : gmap string Q
}.

(** Lines 267-268: [sum(... for criterion in criteria)], which starts from 0
    and reads [normalized_matrix[loc['id']]] at every item. *)
Fixpoint saw_sum (nm : gmap Z (gmap string Q)) (lid : Z)
    (crits : list criterion_row) (acc : Q) : result Q :=
  match crits with
  | [] => Ok acc
  | criterion :: rest =>
      match nm !! lid with
      | None => Raise KeyError
      | Some row =>
          saw_sum nm lid rest
            (acc + crit_weight criterion * default 0 (row !! crit_id criterion))
      end
  end.

(** Lines 266-273. *)
Fixpoint saw_results (db : database) (nm : gmap Z (gmap string Q))
    (locs : list location_row) : result (list saw_record) :=
  match locs with
  | [] => Ok []
  | loc :: rest =>
      score ← saw_sum nm (loc_id loc) (criteria db) 0;
      match nm !! loc_id loc with
      | None => Raise KeyError
      | Some row =>
          rs ← saw_results db nm rest;
          Ok ({| saw_location := loc_name loc;
                 saw_score := round4 score;
                 saw_details := row |} :: rs)
      end
  end.

(** [sorted(results, key=lambda x: x['score'], reverse=True)]: a stable sort
    into descending key order.  A stable sort has exactly one result
    ([stable_descending_unique] below), so the insertion sort returns the
    list that Python's sort returns. *)
Section Sorted.
Context {A : Type} (key : A -> Q).

Fixpoint insert_desc (x : A) (l : list A) : list A :=
  match l with
  | [] => [x]
  | y :: l' => if Qltb (key x) (key y) then y :: insert_desc x l' else x :: y :: l'
  end.

Fixpoint sorted_desc (l : list A) : list A :=
  match l with
  | [] => []
  | x :: l' => insert_desc x (sorted_desc l')
  end.

(** Descending order of the keys, and the items whose key is [k]. *)
Definition desc (a b : A) : Prop := key b <= key a.

Definition tie (k : Q) (a : A) : bool := Qeq_bool (key a) k.

(** [rs] is [pre] put in descending order of the keys, items of equal key
    keeping the order they have in [pre]. *)
Definition stable_descending (pre rs : list A) : Prop :=
  StronglySorted desc rs /\
  rs ≡ₚ pre /\
  forall k, List.filter (tie k) rs = List.filter (tie k) pre.
End Sorted.

(** The list [results] of lines 265-273, before it is sorted. *)
Definition saw_unsorted (db : database) : result (list saw_record) :=
  nm ← saw_matrix db;
  saw_results db nm (locations db).

Definition calculate_saw (db : database) : result (list saw_record) :=
  match locations db, criteria db with
  | [], _ => Ok []
  | _, [] => Ok []
  | _, _ =>
      rs ← saw_unsorted db;
      Ok (sorted_desc saw_score rs)
  end.

(** ** WP *)

Record wp_item : Type := {
  item_location : string;
  item_s : Q
}.

Record wp_record : Type := {
  wp_location : string;
  wp_score : Q;
  wp_s : Q
}.

Definition Qis_integer (y : Q) : bool := Qeq_bool (inject_Z (Qfloor y)) y.

Section WP.
(** The exact value of a power of a positive base with an exponent that is
    not an integer is in general irrational; the value that the C library's
    [pow] stands for is a parameter. *)
Variable libm_pow : Q -> Q -> Q.

(** [math.pow(x, y)] for finite arguments: ValueError for a negative base
    with a non-integer exponent and for zero to a negative power,
    OverflowError when the power overflows.  A power that underflows is
    rounded and raises nothing. *)
Definition math_pow (x y : Q) : result Q :=
  if Qis_integer y then
    if Qeq_bool x 0 && Qltb y 0 then Raise ValueError
    else math_result (Qpower x (Qfloor y))
  else if Qltb x 0 then Raise ValueError
  else if Qeq_bool x 0 then
    if Qltb y 0 then Raise ValueError else Ok 0
  else math_result (libm_pow x y).

(** Line 305. *)
Definition wp_exponent (criterion : criterion_row) : Q :=
  if String.eqb (crit_type criterion) "cost" then - crit_weight criterion
  else crit_weight criterion.

(** Lines 296-306: the loop over the criteria for one location, [s] being
    the accumulator. *)
Fixpoint wp_product (db : database) (loc : location_row)
    (crits : list criterion_row) (s : Q) : result Q :=
  match crits with
  | [] => Ok s
  | criterion :: rest =>
      let value := value_of db (loc_id loc) (crit_id criterion) in
      if Qeq_bool value 0 then wp_product db loc rest s
      else
        p ← math_pow value (wp_exponent criterion);
        wp_product db loc rest (s * p)
  end.

(** Lines 293-308. *)
Fixpoint wp_s_values (db : database) (locs : list location_row) : result (list wp_item) :=
  match locs with
  | [] => Ok []
  | loc :: rest =>
      s ← wp_product db loc (criteria db) 1;
      items ← wp_s_values db rest;
      Ok ({| item_location := loc_name loc; item_s := s |} :: items)
  end.

(** Line 310: [sum(item['s'] for item in s_values)]. *)
Definition sum_s (items : list wp_item) : Q :=
  fold_left (fun acc item => acc + item_s item) items 0.

(** Lines 312-316. *)
Fixpoint wp_results (total_s : Q) (items : list wp_item) : result (list wp_record) :=
  match items with
  | [] => Ok []
  | item :: rest =>
      score ← (if Qltb 0 total_s
               then q ← py_div (item_s item) total_s; Ok (round4 q)
               else Ok 0);
      rs ← wp_results total_s rest;
      Ok ({| wp_location := item_location item;
             wp_score := score;
             wp_s := item_s item |} :: rs)
  end.

(** The list [results] of lines 312-316, before it is sorted. *)
Definition wp_unsorted (db : database) : result (list wp_record) :=
  s_values ← wp_s_values db (locations db);
  wp_results (sum_s s_values) s_values.

Definition calculate_wp (db : database) : result (list wp_record) :=
  match locations db, criteria db with
  | [], _ => Ok []
  | _, [] => Ok []
  | _, _ =>
      rs ← wp_unsorted db;
      Ok (sorted_desc wp_score rs)
  end.
End WP.

(** ** WP as the specification words it *)

Definition Qsum (l : list Q) : Q := fold_right Qplus 0 l.

Section WPSpec.
Variable libm_pow : Q -> Q -> Q.

(** [signedWeight(c)] *)
Definition signed_weight (c : criterion_row) : Q :=
  if String.eqb (crit_type c) "cost" then - crit_weight c else crit_weight c.



(** The record of an item of [s_values] for a given total. *)
Definition wp_record_spec (total : Q) (item : wp_item) : wp_record :=
  {| wp_location := item_location item;
     wp_score := if Qltb 0 total then round4 (item_s item / total) else 0;
     wp_s := item_s item |}.

(** No negative value meets a weight that is not an integer. *)
Definition powers_defined (db : database) : bool :=
  forallb (fun loc =>
    forallb (fun c => Qle_bool 0 (value_of db (loc_id loc) (crit_id c))
                      || Qis_integer (crit_weight c))
      (criteria db))
    (locations db).

(** The exact value of the power of a value under a criterion. *)
Definition power_value (c : criterion_row) (v : Q) : Q :=
  if Qis_integer (signed_weight c) then Qpower v (Qfloor (signed_weight c))
  else libm_pow v (signed_weight c).

(** The power of a location under a criterion does not overflow: the value
    is 0 and skipped, or it is negative under a weight that is not an integer,
    where [math.pow] has no value, or the power stays below the threshold. *)
Definition power_in_range (db : database) (loc : location_row) (c : criterion_row) : bool :=
  let v := value_of db (loc_id loc) (crit_id c) in
  Qeq_bool v 0
  || negb (Qle_bool 0 v || Qis_integer (crit_weight c))
  || Qltb (Qabs (power_value c v)) float_overflow.

(** No power that WP computes overflows. *)
Definition powers_in_range (db : database) : bool :=
  forallb (fun loc => forallb (power_in_range db loc) (criteria db)) (locations db).
End WPSpec.

(** ** The constraints of the schema and the vocabulary of the specification *)

Definition lc_key (r : lc_row) : Z * string := (lc_location_id r, lc_criteria_id r).

(** [PRIMARY KEY (location_id, criteria_id)] *)
Definition lc_primary_key (db : database) : Prop :=
  NoDup (map lc_key (location_criteria db)).

(** [id TEXT PRIMARY KEY] of [criteria] *)
Definition criteria_primary_key (db : database) : Prop :=
  NoDup (map crit_id (criteria db)).

(** [FOREIGN KEY (location_id) REFERENCES locations(id)] *)
Definition lc_foreign_key (db : database) : bool :=
  forallb (fun r => existsb (fun l => Z.eqb (loc_id l) (lc_location_id r)) (locations db))
    (location_criteria db).

(** Every location has a stored value for the criterion. *)
Definition every_location_has_value (db : database) (cid : string) : bool :=
  forallb (fun l => match fetch_value db (loc_id l) cid with Some _ => true | None => false end)
    (locations db).

(** [value(l,c) for l in L]: the values over the full location set, a missing
    one counted as 0. *)
Definition full_values (db : database) (cid : string) : list Q :=
  map (fun l => value_of db (loc_id l) cid) (locations db).

(** The two normalisation formulas as the specification words them. *)
Definition benefit_formula (value max_c : Q) : Q :=
  if Qltb 0 max_c then value / max_c else 0.

Definition cost_formula (value min_c : Q) : Q :=
  if Qltb 0 min_c && Qltb 0 value then min_c / value else 0.

(** The entry [normalized_matrix[lid][cid]], when there is one. *)
Definition entry (nm : gmap Z (gmap string Q)) (lid : Z) (cid : string) : option Q :=
  row ← nm !! lid; row !! cid.

(** The same entry of the matrix that SAW computes for a dataset. *)
Definition saw_entry (db : database) (lid : Z) (cid : string) : result (option Q) :=
  nm ← saw_matrix db;
  Ok (entry nm lid cid).

(** [n(l,c)] as the score reads it: [normalized_matrix[lid].get(cid, 0)]. *)
Definition n_of (nm : gmap Z (gmap string Q)) (lid : Z) (cid : string) : Q :=
  default 0 (entry nm lid cid).

(** The value written at [(lid, crit_id criterion)] by the loop of lines
    251-263. *)
Definition written (db : database) (criterion : criterion_row) (M m : Q) (lid : Z) : Q :=
  if String.eqb (crit_type criterion) "benefit"
  then benefit_formula (value_of db lid (crit_id criterion)) M
  else cost_formula (value_of db lid (crit_id criterion)) m.

(** [Σ_c weight(c) * n(l,c)] *)
Definition weighted_sum (nm : gmap Z (gmap string Q)) (lid : Z)
    (crits : list criterion_row) : Q :=
  fold_right (fun c acc => crit_weight c * n_of nm lid (crit_id c) + acc) 0 crits.

(** The record that the specification describes for a location. *)
Definition saw_record_spec (db : database) (nm : gmap Z (gmap string Q))
    (loc : location_row) : saw_record :=
  {| saw_location := loc_name loc;
     saw_score := round4 (weighted_sum nm (loc_id loc) (criteria db));
     saw_details := default ∅ (nm !! loc_id loc) |}.

(** At least one criterion has a stored value. *)
Definition some_criterion_has_values (db : database) : bool :=
  existsb (fun c => match criterion_values db (crit_id c) with [] => false | _ => true end)
    (criteria db).

(** The dataset with every criterion type [t] replaced by [f t]. *)
Definition retype (f : string -> string) (c : criterion_row) : criterion_row :=
  {| crit_id := crit_id c; crit_name := crit_name c;
     crit_weight := crit_weight c; crit_type := f (crit_type c) |}.

Definition with_types (f : string -> string) (db : database) : database :=
  {| locations := locations db;
     criteria := map (retype f) (criteria db);
     location_criteria := location_criteria db |}.

(** How each algorithm reads a type string. *)
Definition saw_reading (t : string) : string :=
  if String.eqb t "benefit" then "benefit" else "cost".

Definition wp_reading (t : string) : string :=
  if String.eqb t "cost" then "cost" else "benefit".

Module Scenario.
Definition loc (i : Z) (n : string) : location_row :=
  {| loc_id := i; loc_name := n; loc_address := ""; loc_latitude := 0; loc_longitude := 0 |}.
Definition crit (i : string) (w : Q) (t : string) : criterion_row :=
  {| crit_id := i; crit_name := i; crit_weight := w; crit_type := t |}.
Definition lc (l : Z) (c : string) (v : Q) : lc_row :=
  {| lc_location_id := l; lc_criteria_id := c; lc_value := v |}.

Definition benefit_db : database :=
  {| locations := [loc 1 "A"; loc 2 "B"];
     criteria := [crit "c1" 1 "benefit"];
     location_criteria := [lc 1 "c1" 10; lc 2 "c1" 5] |}.

Definition cost_db : database :=
  {| locations := [loc 1 "A"; loc 2 "B"];
     criteria := [crit "c1" 1 "cost"];
     location_criteria := [lc 1 "c1" 10; lc 2 "c1" 5] |}.

(** A negative raw value. *)
Definition negative_db : database :=
  {| locations := [loc 1 "A"; loc 2 "B"];
     criteria := [crit "c1" 1 "benefit"];
     location_criteria := [lc 1 "c1" (-5); lc 2 "c1" 10] |}.

(** Every stored value is 0. *)
Definition zero_db : database :=
  {| locations := [loc 1 "A"; loc 2 "B"];
     criteria := [crit "c1" 1 "benefit"];
     location_criteria := [lc 1 "c1" 0; lc 2 "c1" 0] |}.

(** A location and a criterion, and no stored value at all. *)
Definition empty_values_db : database :=
  {| locations := [loc 1 "A"];
     criteria := [crit "c1" 1 "benefit"];
     location_criteria := [] |}.



(** A negative value under the weight 1/2. *)
Definition root_db : database :=
  {| locations := [loc 1 "A"];
     criteria := [crit "c1" (1 # 2) "benefit"];
     location_criteria := [lc 1 "c1" (-2)] |}.

(** A criterion whose type is neither "benefit" nor "cost". *)
Definition other_type_db : database :=
  {| locations := [loc 1 "A"; loc 2 "B"];
     criteria := [crit "c1" 2 "neutral"];
     location_criteria := [lc 1 "c1" 10; lc 2 "c1" 5] |}.

(** Location B has no value at all, location A has the product 1/2. *)
Definition outrank_db : database :=
  {| locations := [loc 1 "A"; loc 2 "B"];
     criteria := [crit "c1" 1 "benefit"];
     location_criteria := [lc 1 "c1" (1 # 2)] |}.

(** A rational reading of [pow] between two integer exponents, by linear
    interpolation; the scenarios use integer exponents only. *)
Definition interpolated_pow (x y : Q) : Q :=
  Qpower x (Qfloor y) * (1 + (y - inject_Z (Qfloor y)) * (x - 1)).

(** The value 10 under the weight 400. *)
Definition overflow_db : database :=
  {| locations := [loc 1 "A"];
     criteria := [crit "c1" 400 "benefit"];
     location_criteria := [lc 1 "c1" 10] |}.

(** Location B has no stored value for the only criterion. *)
Definition missing_db : database :=
  {| locations := [loc 1 "A"; loc 2 "B"];
     criteria := [crit "c1" 1 "cost"];
     location_criteria := [lc 1 "c1" 5] |}.
End Scenario.

(** ** The record endpoints

    Every endpoint opens a connection, runs its statements in one
    transaction and commits at the end.  When an exception leaves the
    function before [conn.commit()], nothing is committed and the database
    stays the one the request started from: an outcome is either a committed
    new database with the value returned, or an error.

    A table is the list of its rows in the order of a scan: an inserted row
    goes to the end, an updated row keeps its place.  The statements are
    described for a table that satisfies its primary key, which SQLite
    guarantees. *)

Inductive api_error : Type :=
| IntegrityError
| HTTPException (status_code : Z) (detail : string).

Inductive outcome (A : Type) : Type :=
| Committed (a : A) (db : database)
| Aborted (e : api_error).
Arguments Committed {A} a db.
Arguments Aborted {A} e.

(** The database that a request leaves behind. *)
Definition db_after {A : Type} (db : database) (o : outcome A) : database :=
  match o with
  | Committed _ db' => db'
  | Aborted _ => db
  end.

(** [init_db] on a fresh file: the three tables, empty. *)
Definition init_db : database :=
  {| locations := []; criteria := []; location_criteria := [] |}.

(** [LocationBase]; [criteria] is a dict, its items in insertion order. *)
Record LocationBase : Type := {
  lb_name : string;
  lb_address : string;
  lb_latitude : Q;
  lb_longitude : Q;
  lb_criteria : list (string * Q)
}.

(** An item of the answer of [get_locations]; the order of the keys of
    [criteria] is the order of a scan and is left out. *)
Record Location : Type := {
  l_id : Z;
  l_name : string;
  l_address : string;
  l_latitude : Q;
  l_longitude : Q;
  l_criteria : gmap string Q
}.

(** [{row['criteria_id']: row['value'] for row in c.fetchall()}] *)
Definition dict_of_rows (rows : list lc_row) : gmap string Q :=
  fold_left (fun d r => <[lc_criteria_id r := lc_value r]> d) rows ∅.

(** The dict of a request body. *)
Definition dict_of_items (items : list (string * Q)) : gmap string Q :=
  fold_left (fun d kv => <[fst kv := snd kv]> d) items ∅.

(** [SELECT criteria_id, value FROM location_criteria WHERE location_id = ?] *)
Definition rows_of_location (db : database) (lid : Z) : list lc_row :=
  List.filter (fun r => Z.eqb (lc_location_id r) lid) (location_criteria db).

(** Lines 80-103. *)
Definition get_locations (db : database) : list Location :=
  map (fun loc =>
         {| l_id := loc_id loc;
            l_name := loc_name loc;
            l_address := loc_address loc;
            l_latitude := loc_latitude loc;
            l_longitude := loc_longitude loc;
            l_criteria := dict_of_rows (rows_of_location db (loc_id loc)) |})
    (locations db).

(** The rowid that SQLite gives to a row inserted without one: 1 in an empty
    table, otherwise one more than the largest rowid in use (below the
    largest 64-bit integer, which the model does not reach). *)
Definition next_rowid (rows : list location_row) : Z :=
  match rows with
  | [] => 1
  | r :: rest => (fold_left Z.max (map loc_id rest) (loc_id r) + 1)%Z
  end.

Definition lc_has_key (rows : list lc_row) (lid : Z) (cid : string) : bool :=
  existsb (fun r => Z.eqb (lc_location_id r) lid && String.eqb (lc_criteria_id r) cid) rows.

(** The loop [for criteria_id, value in location.criteria.items(): INSERT
    INTO location_criteria ...]; [None] when an insertion violates the
    primary key. *)
Fixpoint insert_values (lid : Z) (items : list (string * Q)) (rows : list lc_row)
    : option (list lc_row) :=
  match items with
  | [] => Some rows
  | (cid, v) :: rest =>
      if lc_has_key rows lid cid then None
      else insert_values lid rest
             (rows ++ [{| lc_location_id := lid; lc_criteria_id := cid; lc_value := v |}])%list
  end.

(** Lines 105-121. *)
Definition create_location (db : database) (location : LocationBase)
    : outcome (Z * LocationBase) :=
  let location_id := next_rowid (locations db) in
  let locs :=
    (locations db ++ [{| loc_id := location_id;
                         loc_name := lb_name location;
                         loc_address := lb_address location;
                         loc_latitude := lb_latitude location;
                         loc_longitude := lb_longitude location |}])%list in
  match insert_values location_id (lb_criteria location) (location_criteria db) with
  | None => Aborted IntegrityError
  | Some rows =>
      Committed (location_id, location)
        {| locations := locs; criteria := criteria db; location_criteria := rows |}
  end.

(** The ids that a statement can take: the [sqlite3] module binds a Python
    int as a signed 64-bit integer, and [execute] raises OverflowError for
    any other int before the statement runs. *)
Definition sqlite_int (n : Z) : Prop := (- 2 ^ 63 <= n < 2 ^ 63)%Z.

(** Lines 123-143, for a [location_id] that the first statement can take
    ([sqlite_int]). *)
Definition update_location (db : database) (location_id : Z) (location : LocationBase)
    : outcome (Z * LocationBase) :=
  let locs :=
    map (fun r => if Z.eqb (loc_id r) location_id
                  then {| loc_id := loc_id r;
                          loc_name := lb_name location;
                          loc_address := lb_address location;
                          loc_latitude := lb_latitude location;
                          loc_longitude := lb_longitude location |}
                  else r)
      (locations db) in
  let rowcount := length (List.filter (fun r => Z.eqb (loc_id r) location_id) (locations db)) in
  if Nat.eqb rowcount 0 then Aborted (HTTPException 404 "Location not found")
  else
    let kept :=
      List.filter (fun r => negb (Z.eqb (lc_location_id r) location_id))
        (location_criteria db) in
    match insert_values location_id (lb_criteria location) kept with
    | None => Aborted IntegrityError
    | Some rows =>
        Committed (location_id, location)
          {| locations := locs; criteria := criteria db; location_criteria := rows |}
    end.

(** Lines 145-159, for a [location_id] that the first statement can take
    ([sqlite_int]). *)
Definition delete_location (db : database) (location_id : Z) : outcome string :=
  let rows :=
    List.filter (fun r => negb (Z.eqb (lc_location_id r) location_id))
      (location_criteria db) in
  let locs := List.filter (fun r => negb (Z.eqb (loc_id r) location_id)) (locations db) in
  let rowcount := length (List.filter (fun r => Z.eqb (loc_id r) location_id) (locations db)) in
  if Nat.eqb rowcount 0 then Aborted (HTTPException 404 "Location not found")
  else
    Committed "Location deleted"
      {| locations := locs; criteria := criteria db; location_criteria := rows |}.

(** Lines 162-171. *)
Definition get_criteria (db : database) : list criterion_row := criteria db.

(** Lines 173-184. *)
Definition create_criteria (db : database) (c : criterion_row) : outcome criterion_row :=
  if existsb (fun r => String.eqb (crit_id r) (crit_id c)) (criteria db)
  then Aborted IntegrityError
  else
    Committed c
      {| locations := locations db;
         criteria := (criteria db ++ [c])%list;
         location_criteria := location_criteria db |}.

(** [UPDATE location_criteria SET criteria_id = ? WHERE criteria_id = ?]
    violates the primary key when a location has a row under each of the two
    ids. *)
Definition rename_conflict (rows : list lc_row) (old new : string) : bool :=
  existsb (fun r => String.eqb (lc_criteria_id r) old
                    && lc_has_key rows (lc_location_id r) new) rows.

Definition rename_rows (rows : list lc_row) (old new : string) : list lc_row :=
  map (fun r => if String.eqb (lc_criteria_id r) old
                then {| lc_location_id := lc_location_id r;
                        lc_criteria_id := new;
                        lc_value := lc_value r |}
                else r) rows.

(** Lines 186-205. *)
Definition update_criteria (db : database) (criteria_id : string) (c : criterion_row)
    : outcome criterion_row :=
  let rowcount :=
    length (List.filter (fun r => String.eqb (crit_id r) criteria_id) (criteria db)) in
  if Nat.eqb rowcount 0 then Aborted (HTTPException 404 "Criteria not found")
  else if negb (String.eqb criteria_id (crit_id c))
          && existsb (fun r => String.eqb (crit_id r) (crit_id c)) (criteria db)
  then Aborted IntegrityError
  else
    let crits :=
      map (fun r => if String.eqb (crit_id r) criteria_id then c else r) (criteria db) in
    if String.eqb criteria_id (crit_id c) then
      Committed c
        {| locations := locations db; criteria := crits;
           location_criteria := location_criteria db |}
    else if rename_conflict (location_criteria db) criteria_id (crit_id c)
    then Aborted IntegrityError
    else
      Committed c
        {| locations := locations db; criteria := crits;
           location_criteria := rename_rows (location_criteria db) criteria_id (crit_id c) |}.

(** Lines 207-221. *)
Definition delete_criteria (db : database) (criteria_id : string) : outcome string :=
  let rows :=
    List.filter (fun r => negb (String.eqb (lc_criteria_id r) criteria_id))
      (location_criteria db) in
  let crits := List.filter (fun r => negb (String.eqb (crit_id r) criteria_id)) (criteria db) in
  let rowcount :=
    length (List.filter (fun r => String.eqb (crit_id r) criteria_id) (criteria db)) in
  if Nat.eqb rowcount 0 then Aborted (HTTPException 404 "Criteria not found")
  else
    Committed "Criteria deleted"
      {| locations := locations db; criteria := crits; location_criteria := rows |}.

(** ** The constraints that the endpoints keep *)

(** The rows of [locations] are in the order of their ids, the order of a
    scan of a table whose key is the rowid. *)
Definition locations_ordered (db : database) : Prop :=
  StronglySorted Z.lt (map loc_id (locations db)).

Definition schema_holds (db : database) : Prop :=
  locations_ordered db /\
  criteria_primary_key db /\
  lc_primary_key db /\
  lc_foreign_key db = true.

(** The row that stores an item of a request body for a location. *)
Definition value_row (lid : Z) (kv : string * Q) : lc_row :=
  {| lc_location_id := lid; lc_criteria_id := fst kv; lc_value := snd kv |}.

(** The item of [get_locations] for a request body stored under an id. *)
Definition location_of (lid : Z) (location : LocationBase) : Location :=
  {| l_id := lid;
     l_name := lb_name location;
     l_address := lb_address location;
     l_latitude := lb_latitude location;
     l_longitude := lb_longitude location;
     l_criteria := dict_of_items (lb_criteria location) |}.

(** [fetch_value] on the rows of a table. *)
Definition stored_value (rows : list lc_row) (lid : Z) (cid : string) : option Q :=
  match List.filter (fun r => Z.eqb (lc_location_id r) lid && String.eqb (lc_criteria_id r) cid)
          rows with
  | [] => None
  | r :: _ => Some (lc_value r)
  end.

(** An item of [get_locations] without the key [cid] in its criteria. *)
Definition without_criterion (cid : string) (l : Location) : Location :=
  {| l_id := l_id l;
     l_name := l_name l;
     l_address := l_address l;
     l_latitude := l_latitude l;
     l_longitude := l_longitude l;
     l_criteria := delete cid (l_criteria l) |}.

(** The databases that committed requests produce from the empty one. *)
Inductive reachable : database -> Prop :=
| reach_init : reachable init_db
| reach_create_location db db' location r :
    reachable db -> create_location db location = Committed r db' -> reachable db'
| reach_update_location db db' id location r :
    reachable db -> update_location db id location = Committed r db' -> reachable db'
| reach_delete_location db db' id r :
    reachable db -> delete_location db id = Committed r db' -> reachable db'
| reach_create_criteria db db' c r :
    reachable db -> create_criteria db c = Committed r db' -> reachable db'
| reach_update_criteria db db' id c r :
    reachable db -> update_criteria db id c = Committed r db' -> reachable db'
| reach_delete_criteria db db' id r :
    reachable db -> delete_criteria db id = Committed r db' -> reachable db'.

(** The database without the values stored under ids that are not ids of
    criteria. *)
Definition known_values (db : database) : database :=
  {| locations := locations db;
     criteria := criteria db;
     location_criteria :=
       List.filter (fun r => existsb (fun c => String.eqb (crit_id c) (lc_criteria_id r))
                               (criteria db))
         (location_criteria db) |}.

(** The keys of a dict are distinct. *)
Definition distinct_keys (items : list (string * Q)) : Prop := NoDup (map fst items).

Module Requests.
Definition shop : LocationBase :=
  {| lb_name := "Shop"; lb_address := "1 Main St"; lb_latitude := 1; lb_longitude := 2;
     lb_criteria := [("c1", 7); ("c2", 3)] |}.

Definition kiosk : LocationBase :=
  {| lb_name := "Kiosk"; lb_address := "2 Side St"; lb_latitude := 3; lb_longitude := 4;
     lb_criteria := [("c1", 4)] |}.

Definition rent : criterion_row :=
  {| crit_id := "c1"; crit_name := "Rent"; crit_weight := 1; crit_type := "cost" |}.

Definition rent_renamed : criterion_row :=
  {| crit_id := "rent"; crit_name := "Rent"; crit_weight := 1; crit_type := "cost" |}.

Definition rent_as_c2 : criterion_row :=
  {| crit_id := "c2"; crit_name := "Rent"; crit_weight := 1; crit_type := "cost" |}.

(** A body without criteria. *)
Definition bare : LocationBase :=
  {| lb_name := "Bare"; lb_address := "3 Back St"; lb_latitude := 5; lb_longitude := 6;
     lb_criteria := [] |}.

(** The databases after: the criterion "c1"; then the location "Shop", which
    also posts a value under "c2", an id that is not the id of a criterion;
    then the location "Kiosk". *)
Definition with_rent : database := db_after init_db (create_criteria init_db rent).
Definition with_shop : database := db_after with_rent (create_location with_rent shop).
Definition with_kiosk : database := db_after with_shop (create_location with_shop kiosk).

(** After the criterion "c1" has moved to the id "rent". *)
Definition renamed : database :=
  db_after with_kiosk (update_criteria with_kiosk "c1" rent_renamed).

(** A criterion and a location, and no stored value. *)
Definition with_bare : database := db_after with_rent (create_location with_rent bare).

(** Raw scores -2 and -3. *)
Definition debts : database :=
  {| locations := [Scenario.loc 1 "A"; Scenario.loc 2 "B"];
     criteria := [Scenario.crit "c1" 1 "benefit"];
     location_criteria := [Scenario.lc 1 "c1" (-2); Scenario.lc 2 "c1" (-3)] |}.
End Requests.

(** * Properties *)

(** ** Comparisons and rounding *)

Lemma Qltb_lt (x y : Q) : Qltb x y = true <-> x < y.
Proof.
  unfold Qltb. rewrite negb_true_iff. split.
  - intros H. apply Qnot_le_lt. intros Hle. apply Qle_bool_iff in Hle. congruence.
  - intros H. destruct (Qle_bool y x) eqn:E; [|reflexivity].
    apply Qle_bool_iff in E. exfalso. apply (Qlt_not_le _ _ H E).
Qed.

Lemma Qltb_ge (x y : Q) : Qltb x y = false <-> y <= x.
Proof.
  unfold Qltb. rewrite negb_false_iff. apply Qle_bool_iff.
Qed.

Lemma Qeq_bool_false (x y : Q) : Qeq_bool x y = false <-> ~ x == y.
Proof.
  split.
  - intros H E. apply Qeq_bool_iff in E. congruence.
  - intros H. destruct (Qeq_bool x y) eqn:E; [|reflexivity].
    apply Qeq_bool_iff in E. contradiction.
Qed.

Ltac qbool :=
  repeat match goal with
  | H : Qltb _ _ = true |- _ => apply Qltb_lt in H
  | H : Qltb _ _ = false |- _ => apply Qltb_ge in H
  | H : Qeq_bool _ _ = true |- _ => apply Qeq_bool_iff in H
  | H : Qeq_bool _ _ = false |- _ => apply Qeq_bool_false in H
  | H : Qle_bool _ _ = true |- _ => apply Qle_bool_iff in H
  end.


#[global] Instance round_half_even_proper : Proper (Qeq ==> eq) round_half_even.
Proof.
  intros x y Hxy. unfold round_half_even.
  assert (Hf : Qfloor x = Qfloor y) by (apply Qfloor_comp; exact Hxy).
  rewrite Hf.
  assert (H1 : Qltb (x - inject_Z (Qfloor y)) (1 # 2)
               = Qltb (y - inject_Z (Qfloor y)) (1 # 2)).
  { destruct (Qltb (y - _) _) eqn:E; qbool.
    - apply Qltb_lt. lra.
    - apply Qltb_ge. lra. }
  assert (H2 : Qltb (1 # 2) (x - inject_Z (Qfloor y))
               = Qltb (1 # 2) (y - inject_Z (Qfloor y))).
  { destruct (Qltb _ (y - _)) eqn:E; qbool.
    - apply Qltb_lt. lra.
    - apply Qltb_ge. lra. }
  rewrite H1, H2. reflexivity.
Qed.

#[global] Instance round4_proper : Proper (Qeq ==> eq) round4.
Proof.
  intros x y Hxy. unfold round4. f_equal.
  apply round_half_even_proper. rewrite Hxy. reflexivity.
Qed.


(** ** The stable descending sort *)

Section SortedFacts.
Context {A : Type} (key : A -> Q).

Lemma insert_desc_perm (x : A) (l : list A) :
  Permutation (insert_desc key x l) (x :: l).
Proof.
  induction l as [|y l IH]; simpl; [reflexivity|].
  destruct (Qltb (key x) (key y)); [|reflexivity].
  rewrite IH. apply perm_swap.
Qed.

Lemma sorted_desc_perm (l : list A) : Permutation (sorted_desc key l) l.
Proof.
  induction l as [|x l IH]; simpl; [reflexivity|].
  rewrite insert_desc_perm. apply perm_skip, IH.
Qed.

Lemma insert_desc_sorted (x : A) (l : list A) :
  StronglySorted (desc key) l -> StronglySorted (desc key) (insert_desc key x l).
Proof.
  induction 1 as [|y l Hl IH Hy]; simpl.
  - repeat constructor.
  - destruct (Qltb (key x) (key y)) eqn:E; qbool.
    + constructor; [exact IH|].
      rewrite List.Forall_forall in *. intros z Hz.
      apply (Permutation_in _ (insert_desc_perm x l)) in Hz.
      destruct Hz as [<-|Hz]; [unfold desc; lra|auto].
    + constructor; [constructor; assumption|].
      constructor; [exact E|].
      rewrite List.Forall_forall in *. intros z Hz. specialize (Hy z Hz).
      unfold desc in *. lra.
Qed.

Lemma sorted_desc_sorted (l : list A) : StronglySorted (desc key) (sorted_desc key l).
Proof.
  induction l as [|x l IH]; simpl; [constructor|].
  apply insert_desc_sorted, IH.
Qed.

(** An item is only moved past items whose key is strictly greater. *)
Lemma insert_desc_stable (k : Q) (x : A) (l : list A) :
  List.filter (tie key k) (insert_desc key x l) = List.filter (tie key k) (x :: l).
Proof.
  induction l as [|y l IH]; [reflexivity|].
  cbn [insert_desc]. destruct (Qltb (key x) (key y)) eqn:E; [|reflexivity].
  cbn [List.filter] in *. rewrite IH.
  destruct (tie key k y) eqn:Ey; [|reflexivity].
  destruct (tie key k x) eqn:Ex; [|reflexivity].
  unfold tie in *. qbool. lra.
Qed.

Lemma sorted_desc_stable (k : Q) (l : list A) :
  List.filter (tie key k) (sorted_desc key l) = List.filter (tie key k) l.
Proof.
  induction l as [|x l IH]; [reflexivity|].
  cbn [sorted_desc]. rewrite insert_desc_stable.
  cbn [List.filter]. rewrite IH. reflexivity.
Qed.
End SortedFacts.

Lemma sorted_desc_stable_descending {A : Type} (key : A -> Q) (l : list A) :
  stable_descending key l (sorted_desc key l).
Proof.
  unfold stable_descending.
  split; [apply sorted_desc_sorted|].
  split; [apply sorted_desc_perm|]. intros k. apply sorted_desc_stable.
Qed.

(** The three conditions leave one list only, whatever the sorting algorithm. *)
Lemma sorted_stable_unique {A : Type} (key : A -> Q) (l1 l2 : list A) :
  StronglySorted (desc key) l1 -> StronglySorted (desc key) l2 ->
  l1 ≡ₚ l2 ->
  (forall k, List.filter (tie key k) l1 = List.filter (tie key k) l2) ->
  l1 = l2.
Proof.
  revert l2. induction l1 as [|a l1 IH]; intros [|b l2] H1 H2 Hp Hf.
  - reflexivity.
  - exfalso. apply (Permutation_nil_cons Hp).
  - exfalso. apply (Permutation_nil_cons (Permutation_sym Hp)).
  - apply StronglySorted_inv in H1 as [H1 Ha]. apply StronglySorted_inv in H2 as [H2 Hb].
    rewrite List.Forall_forall in Ha, Hb.
    assert (Hba : key b <= key a).
    { assert (Hin : In b (a :: l1)).
      { apply (Permutation_in _ (Permutation_sym Hp)). left. reflexivity. }
      destruct Hin as [->|Hin]; [lra|apply Ha, Hin]. }
    assert (Hab : key a <= key b).
    { assert (Hin : In a (b :: l2)) by (apply (Permutation_in _ Hp); left; reflexivity).
      destruct Hin as [->|Hin]; [lra|apply Hb, Hin]. }
    assert (Eab : a = b).
    { pose proof (Hf (key a)) as Hk. cbn [List.filter] in Hk.
      assert (Ta : tie key (key a) a = true) by (apply Qeq_bool_iff; reflexivity).
      assert (Tb : tie key (key a) b = true) by (apply Qeq_bool_iff; lra).
      rewrite Ta, Tb in Hk. congruence. }
    subst b. f_equal. apply IH; try assumption.
    + apply (Permutation_cons_inv Hp).
    + intros k. specialize (Hf k). cbn [List.filter] in Hf.
      destruct (tie key k a); congruence.
Qed.

Lemma stable_descending_unique {A : Type} (key : A -> Q) (pre rs : list A) :
  stable_descending key pre rs -> rs = sorted_desc key pre.
Proof.
  intros (Hs & Hp & Hf).
  destruct (sorted_desc_stable_descending key pre) as (Hs' & Hp' & Hf').
  apply (sorted_stable_unique key); try assumption.
  - rewrite Hp, Hp'. reflexivity.
  - intros k. rewrite Hf, Hf'. reflexivity.
Qed.

(** ** [max] and [min] *)

Lemma max_from_ge (cur : Q) (l : list Q) : cur <= max_from cur l.
Proof.
  revert cur. induction l as [|x l IH]; intros cur; simpl; [lra|].
  destruct (Qltb cur x) eqn:E; qbool.
  - specialize (IH x). lra.
  - apply IH.
Qed.

Lemma max_from_upper (cur : Q) (l : list Q) (v : Q) :
  In v l -> v <= max_from cur l.
Proof.
  revert cur. induction l as [|x l IH]; intros cur Hv; [destruct Hv|].
  destruct Hv as [->|Hv]; simpl.
  - destruct (Qltb cur v) eqn:E; qbool.
    + apply max_from_ge.
    + pose proof (max_from_ge cur l). lra.
  - apply IH, Hv.
Qed.

Lemma max_from_in (cur : Q) (l : list Q) : In (max_from cur l) (cur :: l).
Proof.
  revert cur. induction l as [|x l IH]; intros cur; simpl; [auto|].
  destruct (IH (if Qltb cur x then x else cur)) as [H|H]; [|auto].
  rewrite <- H. destruct (Qltb cur x); auto.
Qed.

Lemma min_from_le (cur : Q) (l : list Q) : min_from cur l <= cur.
Proof.
  revert cur. induction l as [|x l IH]; intros cur; simpl; [lra|].
  destruct (Qltb x cur) eqn:E; qbool.
  - specialize (IH x). lra.
  - apply IH.
Qed.

Lemma min_from_lower (cur : Q) (l : list Q) (v : Q) :
  In v l -> min_from cur l <= v.
Proof.
  revert cur. induction l as [|x l IH]; intros cur Hv; [destruct Hv|].
  destruct Hv as [->|Hv]; simpl.
  - destruct (Qltb v cur) eqn:E; qbool.
    + apply min_from_le.
    + pose proof (min_from_le cur l). lra.
  - apply IH, Hv.
Qed.

Lemma min_from_in (cur : Q) (l : list Q) : In (min_from cur l) (cur :: l).
Proof.
  revert cur. induction l as [|x l IH]; intros cur; simpl; [auto|].
  destruct (IH (if Qltb x cur then x else cur)) as [H|H]; [|auto].
  rewrite <- H. destruct (Qltb x cur); auto.
Qed.

Lemma py_max_spec (l : list Q) (M : Q) :
  py_max l = Ok M -> In M l /\ forall v, In v l -> v <= M.
Proof.
  destruct l as [|x l]; [discriminate|]. intros [= <-]. split.
  - apply max_from_in.
  - intros v [->|Hv]; [apply max_from_ge|apply max_from_upper, Hv].
Qed.

Lemma py_min_spec (l : list Q) (m : Q) :
  py_min l = Ok m -> In m l /\ forall v, In v l -> m <= v.
Proof.
  destruct l as [|x l]; [discriminate|]. intros [= <-]. split.
  - apply min_from_in.
  - intros v [->|Hv]; [apply min_from_le|apply min_from_lower, Hv].
Qed.

(** ** Sums *)





(** ** The tables *)

Lemma fetch_value_stored (db : database) (lid : Z) (cid : string) (v : Q) :
  fetch_value db lid cid = Some v -> In v (criterion_values db cid).
Proof.
  unfold fetch_value, criterion_values.
  destruct (List.filter _ _) as [|r rs] eqn:E; [discriminate|].
  intros [= <-].
  assert (Hr : In r (r :: rs)) by (left; reflexivity).
  rewrite <- E in Hr. apply filter_In in Hr as [Hr Hk].
  apply andb_true_iff in Hk as [_ Hk].
  apply in_map, filter_In. split; assumption.
Qed.

Lemma lc_key_unique (rows : list lc_row) (r r' : lc_row) :
  NoDup (map lc_key rows) -> In r rows -> In r' rows -> lc_key r = lc_key r' -> r = r'.
Proof.
  induction rows as [|a rows IH]; simpl; [tauto|].
  intros Hnd Hr Hr' Hk. apply NoDup_cons in Hnd as [Ha Hnd].
  rewrite list_elem_of_In in Ha.
  destruct Hr as [->|Hr], Hr' as [->|Hr']; [reflexivity| | |auto].
  - exfalso. apply Ha. rewrite Hk. apply in_map, Hr'.
  - exfalso. apply Ha. rewrite <- Hk. apply in_map, Hr.
Qed.

Lemma fetch_value_row (db : database) (r : lc_row) :
  lc_primary_key db -> In r (location_criteria db) ->
  fetch_value db (lc_location_id r) (lc_criteria_id r) = Some (lc_value r).
Proof.
  intros Hpk Hr. unfold fetch_value.
  set (p := fun r0 : lc_row => _).
  assert (Hin : In r (List.filter p (location_criteria db))).
  { apply filter_In. split; [exact Hr|]. unfold p.
    rewrite Z.eqb_refl, String.eqb_refl. reflexivity. }
  destruct (List.filter p _) as [|r' rs] eqn:E; [destruct Hin|].
  assert (Hr' : In r' (List.filter p (location_criteria db))) by (rewrite E; left; reflexivity).
  apply filter_In in Hr' as [Hr' Hk]. unfold p in Hk.
  apply andb_true_iff in Hk as [Hl Hc].
  apply Z.eqb_eq in Hl. apply String.eqb_eq in Hc.
  f_equal. f_equal. apply (lc_key_unique (location_criteria db)); try assumption.
  unfold lc_key. congruence.
Qed.

Lemma full_values_stored (db : database) (cid : string) (v : Q) :
  every_location_has_value db cid = true ->
  In v (full_values db cid) -> In v (criterion_values db cid).
Proof.
  intros Hall Hv. unfold full_values in Hv. apply in_map_iff in Hv as (l & <- & Hl).
  unfold every_location_has_value in Hall. rewrite forallb_forall in Hall.
  specialize (Hall l Hl). unfold value_of.
  destruct (fetch_value db (loc_id l) cid) as [w|] eqn:E; [|discriminate].
  eapply fetch_value_stored, E.
Qed.

Lemma stored_full_values (db : database) (cid : string) (v : Q) :
  lc_primary_key db -> lc_foreign_key db = true ->
  In v (criterion_values db cid) -> In v (full_values db cid).
Proof.
  intros Hpk Hfk Hv. unfold criterion_values in Hv.
  apply in_map_iff in Hv as (r & <- & Hr). apply filter_In in Hr as [Hr Hc].
  apply String.eqb_eq in Hc.
  unfold lc_foreign_key in Hfk. rewrite forallb_forall in Hfk.
  specialize (Hfk r Hr). apply existsb_exists in Hfk as (l & Hl & Hid).
  apply Z.eqb_eq in Hid.
  unfold full_values. apply in_map_iff. exists l. split; [|exact Hl].
  unfold value_of. rewrite Hid, <- Hc, (fetch_value_row db r Hpk Hr). reflexivity.
Qed.

Lemma saw_bounds_some (db : database) (cid : string) (M m : Q) :
  saw_bounds db cid = Ok (Some (M, m)) ->
  py_max (criterion_values db cid) = Ok M /\ py_min (criterion_values db cid) = Ok m.
Proof.
  unfold saw_bounds. destruct (criterion_values db cid) as [|x l]; [discriminate|].
  simpl. intros [= <- <-]. split; reflexivity.
Qed.

(** ** The normalisation loops of SAW *)

Lemma normalize_value (ctype : string) (v M m : Q) :
  normalize ctype v M m =
  Ok (if String.eqb ctype "benefit" then benefit_formula v M else cost_formula v m).
Proof.
  unfold normalize, benefit_formula, cost_formula, py_div.
  destruct (String.eqb ctype "benefit").
  - destruct (Qltb 0 M) eqn:E; [|reflexivity].
    destruct (Qeq_bool M 0) eqn:E0; [|reflexivity]. qbool. lra.
  - destruct (Qltb 0 m) eqn:E; [|reflexivity]. simpl.
    destruct (Qltb 0 v) eqn:Ev; [|reflexivity].
    destruct (Qeq_bool v 0) eqn:E0; [|reflexivity]. qbool. lra.
Qed.

Lemma saw_locations_spec (db : database) (c : criterion_row) (M m : Q)
    (locs : list location_row) (nm : gmap Z (gmap string Q)) :
  exists nm', saw_locations db c M m locs nm = Ok nm' /\
    forall lid,
      (In lid (map loc_id locs) ->
       nm' !! lid = Some (<[crit_id c := written db c M m lid]> (default ∅ (nm !! lid)))) /\
      (~ In lid (map loc_id locs) -> nm' !! lid = nm !! lid).
Proof.
  revert nm. induction locs as [|loc rest IH]; intros nm.
  - exists nm. split; [reflexivity|]. intros lid. split; [intros []|reflexivity].
  - cbn [saw_locations]. rewrite normalize_value. cbn [mbind result_bind].
    fold (written db c M m (loc_id loc)).
    set (nm1 := match nm !! loc_id loc with
                | Some _ => nm
                | None => <[loc_id loc := ∅]> nm
                end).
    assert (H1 : nm1 !! loc_id loc = Some (default ∅ (nm !! loc_id loc))).
    { unfold nm1. destruct (nm !! loc_id loc) eqn:E; simpl.
      - exact E.
      - apply lookup_insert_eq. }
    assert (H1' : forall lid, lid <> loc_id loc -> nm1 !! lid = nm !! lid).
    { intros lid Hne. unfold nm1. destruct (nm !! loc_id loc); [reflexivity|].
      apply lookup_insert_ne. congruence. }
    rewrite H1.
    destruct (IH (<[loc_id loc := <[crit_id c := written db c M m (loc_id loc)]>
                                    (default ∅ (nm !! loc_id loc))]> nm1))
      as (nm' & Hrun & Hspec).
    exists nm'. split; [exact Hrun|]. intros lid.
    destruct (Hspec lid) as [Hin Hout]. cbn [map In].
    destruct (Z.eq_dec (loc_id loc) lid) as [<-|Hne].
    + split; [intros _|intros Hn; exfalso; apply Hn; left; reflexivity].
      destruct (in_dec Z.eq_dec (loc_id loc) (map loc_id rest)) as [Hr|Hr].
      * rewrite (Hin Hr), lookup_insert_eq. simpl. rewrite insert_insert_eq. reflexivity.
      * rewrite (Hout Hr), lookup_insert_eq. reflexivity.
    + split.
      * intros [He|Hr]; [congruence|].
        rewrite (Hin Hr), lookup_insert_ne by exact Hne.
        rewrite H1' by congruence. reflexivity.
      * intros Hn. rewrite Hout by tauto.
        rewrite lookup_insert_ne by exact Hne. apply H1'. congruence.
Qed.

Lemma saw_bounds_total (db : database) (cid : string) :
  exists b, saw_bounds db cid = Ok b.
Proof.
  unfold saw_bounds. destruct (criterion_values db cid); simpl; eauto.
Qed.

Lemma saw_bounds_none (db : database) (cid : string) :
  saw_bounds db cid = Ok None <-> criterion_values db cid = [].
Proof.
  unfold saw_bounds. destruct (criterion_values db cid); simpl; split; congruence.
Qed.

(** The effect of one turn of the loop over the criteria. *)
Lemma saw_criteria_cons (db : database) (c : criterion_row) (rest : list criterion_row)
    (nm : gmap Z (gmap string Q)) :
  (saw_bounds db (crit_id c) = Ok None /\
   saw_criteria db (c :: rest) nm = saw_criteria db rest nm) \/
  (exists M m nm1,
     saw_bounds db (crit_id c) = Ok (Some (M, m)) /\
     saw_locations db c M m (locations db) nm = Ok nm1 /\
     saw_criteria db (c :: rest) nm = saw_criteria db rest nm1).
Proof.
  cbn [saw_criteria].
  destruct (saw_bounds_total db (crit_id c)) as ([[M m]|] & Hb); rewrite Hb; simpl.
  - right. destruct (saw_locations_spec db c M m (locations db) nm) as (nm1 & Hrun & _).
    exists M, m, nm1. rewrite Hrun. auto.
  - left. auto.
Qed.

Lemma saw_criteria_total (db : database) (crits : list criterion_row)
    (nm : gmap Z (gmap string Q)) :
  exists nm', saw_criteria db crits nm = Ok nm'.
Proof.
  revert nm. induction crits as [|c rest IH]; intros nm; [simpl; eauto|].
  destruct (saw_criteria_cons db c rest nm) as [[_ ->]|(M & m & nm1 & _ & _ & ->)]; apply IH.
Qed.

Lemma saw_locations_entry_hit (db : database) (c : criterion_row) (M m : Q)
    (nm nm' : gmap Z (gmap string Q)) (lid : Z) :
  saw_locations db c M m (locations db) nm = Ok nm' ->
  In lid (map loc_id (locations db)) ->
  entry nm' lid (crit_id c) = Some (written db c M m lid).
Proof.
  intros Hrun Hl.
  destruct (saw_locations_spec db c M m (locations db) nm) as (nm2 & Hrun2 & Hspec).
  rewrite Hrun in Hrun2. injection Hrun2 as <-.
  destruct (Hspec lid) as [Hin _]. unfold entry.
  rewrite (Hin Hl). simpl. apply lookup_insert_eq.
Qed.

Lemma saw_locations_entry_miss (db : database) (c : criterion_row) (M m : Q)
    (nm nm' : gmap Z (gmap string Q)) (lid : Z) (cid : string) :
  saw_locations db c M m (locations db) nm = Ok nm' ->
  crit_id c <> cid ->
  entry nm' lid cid = entry nm lid cid.
Proof.
  intros Hrun Hne.
  destruct (saw_locations_spec db c M m (locations db) nm) as (nm2 & Hrun2 & Hspec).
  rewrite Hrun in Hrun2. injection Hrun2 as <-.
  destruct (Hspec lid) as [Hin Hout]. unfold entry.
  destruct (in_dec Z.eq_dec lid (map loc_id (locations db))) as [Hl|Hl].
  - rewrite (Hin Hl). simpl. rewrite lookup_insert_ne by exact Hne.
    destruct (nm !! lid); [reflexivity|apply lookup_empty].
  - rewrite (Hout Hl). reflexivity.
Qed.

Lemma saw_locations_row (db : database) (c : criterion_row) (M m : Q)
    (nm nm' : gmap Z (gmap string Q)) (lid : Z) :
  saw_locations db c M m (locations db) nm = Ok nm' ->
  In lid (map loc_id (locations db)) \/ is_Some (nm !! lid) ->
  is_Some (nm' !! lid).
Proof.
  intros Hrun H.
  destruct (saw_locations_spec db c M m (locations db) nm) as (nm2 & Hrun2 & Hspec).
  rewrite Hrun in Hrun2. injection Hrun2 as <-.
  destruct (Hspec lid) as [Hin Hout].
  destruct (in_dec Z.eq_dec lid (map loc_id (locations db))) as [Hl|Hl].
  - rewrite (Hin Hl). eauto.
  - rewrite (Hout Hl). tauto.
Qed.

Lemma saw_criteria_row_kept (db : database) (crits : list criterion_row)
    (nm nm' : gmap Z (gmap string Q)) (lid : Z) :
  saw_criteria db crits nm = Ok nm' -> is_Some (nm !! lid) -> is_Some (nm' !! lid).
Proof.
  revert nm. induction crits as [|c rest IH]; intros nm; [simpl; congruence|].
  destruct (saw_criteria_cons db c rest nm) as [[_ ->]|(M & m & nm1 & _ & H1 & ->)].
  - apply IH.
  - intros Hrun Hrow. apply (IH nm1 Hrun).
    eapply saw_locations_row; eauto.
Qed.

Lemma saw_criteria_row_made (db : database) (crits : list criterion_row)
    (nm nm' : gmap Z (gmap string Q)) (lid : Z) :
  saw_criteria db crits nm = Ok nm' ->
  In lid (map loc_id (locations db)) ->
  (exists c, In c crits /\ criterion_values db (crit_id c) <> []) ->
  is_Some (nm' !! lid).
Proof.
  revert nm. induction crits as [|c rest IH]; intros nm Hrun Hl (c0 & Hc0 & Hv).
  - destruct Hc0.
  - destruct (saw_criteria_cons db c rest nm) as [[Hb E]|(M & m & nm1 & _ & H1 & E)];
      rewrite E in Hrun.
    + apply (IH nm Hrun Hl). exists c0. split; [|exact Hv].
      destruct Hc0 as [->|Hc0]; [|exact Hc0].
      apply saw_bounds_none in Hb. contradiction.
    + eapply saw_criteria_row_kept; [exact Hrun|].
      eapply saw_locations_row; eauto.
Qed.

Lemma saw_criteria_entry_other (db : database) (crits : list criterion_row)
    (nm nm' : gmap Z (gmap string Q)) (lid : Z) (cid : string) :
  saw_criteria db crits nm = Ok nm' ->
  ~ In cid (map crit_id crits) \/ criterion_values db cid = [] ->
  entry nm' lid cid = entry nm lid cid.
Proof.
  revert nm. induction crits as [|c rest IH]; intros nm Hrun Hc; [simpl in Hrun; congruence|].
  assert (Hrest : ~ In cid (map crit_id rest) \/ criterion_values db cid = []).
  { destruct Hc as [Hc|Hc]; [left; simpl in Hc; tauto|right; exact Hc]. }
  destruct (saw_criteria_cons db c rest nm) as [[Hb E]|(M & m & nm1 & Hb & H1 & E)];
    rewrite E in Hrun.
  - apply (IH nm Hrun Hrest).
  - rewrite (IH nm1 Hrun Hrest).
    apply (saw_locations_entry_miss _ _ _ _ _ _ lid cid H1). intros <-.
    destruct Hc as [Hc|Hc]; [apply Hc; left; reflexivity|].
    apply saw_bounds_none in Hc. congruence.
Qed.

Lemma saw_criteria_entry (db : database) (crits : list criterion_row)
    (nm nm' : gmap Z (gmap string Q)) (c : criterion_row) (M m : Q) (lid : Z) :
  NoDup (map crit_id crits) -> In c crits ->
  saw_bounds db (crit_id c) = Ok (Some (M, m)) ->
  In lid (map loc_id (locations db)) ->
  saw_criteria db crits nm = Ok nm' ->
  entry nm' lid (crit_id c) = Some (written db c M m lid).
Proof.
  revert nm. induction crits as [|c0 rest IH]; intros nm Hnd Hc Hb Hl Hrun; [destruct Hc|].
  apply NoDup_cons in Hnd as [Hc0 Hnd]. rewrite list_elem_of_In in Hc0.
  destruct (saw_criteria_cons db c0 rest nm) as [[Hb0 E]|(M0 & m0 & nm1 & Hb0 & H1 & E)];
    rewrite E in Hrun.
  - destruct Hc as [->|Hc]; [congruence|]. eapply IH; eauto.
  - destruct Hc as [->|Hc].
    + rewrite (saw_criteria_entry_other db rest nm1 nm' lid (crit_id c) Hrun) by tauto.
      rewrite (saw_locations_entry_hit _ _ _ _ _ _ lid H1 Hl). congruence.
    + eapply IH; eauto.
Qed.

Lemma saw_matrix_entry (db : database) (nm : gmap Z (gmap string Q))
    (l : location_row) (c : criterion_row) (M m : Q) :
  saw_matrix db = Ok nm -> criteria_primary_key db ->
  In l (locations db) -> In c (criteria db) ->
  saw_bounds db (crit_id c) = Ok (Some (M, m)) ->
  entry nm (loc_id l) (crit_id c) = Some (written db c M m (loc_id l)).
Proof.
  intros Hnm Hpk Hl Hc Hb.
  eapply saw_criteria_entry; eauto. apply in_map, Hl.
Qed.

Lemma saw_matrix_entry_none (db : database) (nm : gmap Z (gmap string Q))
    (lid : Z) (cid : string) :
  saw_matrix db = Ok nm -> criterion_values db cid = [] -> entry nm lid cid = None.
Proof.
  intros Hnm Hv.
  rewrite (saw_criteria_entry_other db (criteria db) ∅ nm lid cid Hnm) by auto.
  unfold entry. rewrite lookup_empty. reflexivity.
Qed.

Lemma value_of_le_max (db : database) (lid : Z) (cid : string) (M m : Q) :
  saw_bounds db cid = Ok (Some (M, m)) -> 0 < M -> value_of db lid cid <= M.
Proof.
  intros Hb HM. apply saw_bounds_some in Hb as [Hmax _].
  apply py_max_spec in Hmax as [_ Hub]. unfold value_of.
  destruct (fetch_value db lid cid) as [v|] eqn:E.
  - apply Hub. eapply fetch_value_stored, E.
  - lra.
Qed.

(** ** The scores of SAW *)

Lemma saw_sum_spec (nm : gmap Z (gmap string Q)) (lid : Z) (row : gmap string Q)
    (crits : list criterion_row) (acc : Q) :
  nm !! lid = Some row ->
  exists q, saw_sum nm lid crits acc = Ok q /\ q == acc + weighted_sum nm lid crits.
Proof.
  intros Hrow. revert acc. induction crits as [|c rest IH]; intros acc; simpl.
  - exists acc. split; [reflexivity|lra].
  - rewrite Hrow. destruct (IH (acc + crit_weight c * default 0 (row !! crit_id c)))
      as (q & Hq & Eq).
    exists q. split; [exact Hq|]. rewrite Eq.
    unfold n_of, entry. rewrite Hrow. simpl. lra.
Qed.

Lemma saw_results_inv (db : database) (nm : gmap Z (gmap string Q))
    (locs : list location_row) (rs : list saw_record) :
  saw_results db nm locs = Ok rs ->
  rs = map (saw_record_spec db nm) locs /\
  forall loc, In loc locs -> is_Some (nm !! loc_id loc).
Proof.
  revert rs. induction locs as [|loc rest IH]; intros rs; simpl.
  - intros [= <-]. split; [reflexivity|intros ? []].
  - destruct (nm !! loc_id loc) as [row|] eqn:Hrow.
    + destruct (saw_sum_spec nm (loc_id loc) row (criteria db) 0 Hrow) as (q & -> & Eq).
      simpl. destruct (saw_results db nm rest) as [rs'|] eqn:Hrest; [|discriminate].
      simpl. intros [= <-]. destruct (IH rs' eq_refl) as [-> Hall]. split.
      * f_equal. unfold saw_record_spec. rewrite Hrow. simpl. f_equal.
        apply round4_proper. rewrite Eq. lra.
      * intros l [<-|Hl]; [rewrite Hrow; eauto|auto].
    + destruct (saw_sum nm (loc_id loc) (criteria db) 0); discriminate.
Qed.

Lemma saw_results_total (db : database) (nm : gmap Z (gmap string Q))
    (locs : list location_row) :
  (forall loc, In loc locs -> is_Some (nm !! loc_id loc)) ->
  returns (saw_results db nm locs).
Proof.
  induction locs as [|loc rest IH]; intros Hall; simpl; [eexists; reflexivity|].
  destruct (Hall loc (or_introl eq_refl)) as [row Hrow].
  destruct (saw_sum_spec nm (loc_id loc) row (criteria db) 0 Hrow) as (q & -> & _).
  simpl. rewrite Hrow.
  destruct IH as [rs ->]; [intros l Hl; apply Hall; right; exact Hl|].
  eexists. reflexivity.
Qed.

Lemma calculate_saw_inv (db : database) (rs : list saw_record) :
  calculate_saw db = Ok rs ->
  locations db <> [] -> criteria db <> [] ->
  exists nm pre, saw_matrix db = Ok nm /\ saw_unsorted db = Ok pre /\
    pre = map (saw_record_spec db nm) (locations db) /\
    rs = sorted_desc saw_score pre.
Proof.
  unfold calculate_saw, saw_unsorted.
  destruct (locations db) as [|l ls] eqn:El; [congruence|].
  destruct (criteria db) as [|c cs] eqn:Ec; [congruence|].
  rewrite <- El. intros Hrun _ _.
  destruct (saw_matrix db) as [nm|] eqn:Hnm; [|discriminate]. simpl in *.
  destruct (saw_results db nm (locations db)) as [pre|] eqn:Hpre; [|discriminate].
  simpl in Hrun. injection Hrun as <-.
  apply saw_results_inv in Hpre as Hinv. destruct Hinv as [Hinv _].
  exists nm, pre. auto.
Qed.

(** ** The loops of WP *)

Section WPFacts.
Variable libm_pow : Q -> Q -> Q.





Lemma wp_results_spec (total : Q) (items : list wp_item) :
  wp_results total items = Ok (map (wp_record_spec total) items).
Proof.
  induction items as [|item rest IH]; [reflexivity|].
  cbn [wp_results map]. rewrite IH. unfold wp_record_spec at 2.
  destruct (Qltb 0 total) eqn:E; [|reflexivity].
  unfold py_div. destruct (Qeq_bool total 0) eqn:E0; [|reflexivity].
  qbool. lra.
Qed.

Lemma calculate_wp_inv (db : database) (rs : list wp_record) :
  calculate_wp libm_pow db = Ok rs ->
  locations db <> [] -> criteria db <> [] ->
  exists items pre, wp_s_values libm_pow db (locations db) = Ok items /\
    wp_unsorted libm_pow db = Ok pre /\
    pre = map (wp_record_spec (sum_s items)) items /\
    rs = sorted_desc wp_score pre.
Proof.
  unfold calculate_wp, wp_unsorted.
  destruct (locations db) as [|l ls] eqn:El; [congruence|].
  destruct (criteria db) as [|c cs] eqn:Ec; [congruence|].
  rewrite <- El. intros Hrun _ _.
  destruct (wp_s_values libm_pow db (locations db)) as [items|] eqn:Hit; [|discriminate].
  cbn [mbind result_bind] in *. rewrite wp_results_spec in *.
  cbn [mbind result_bind] in Hrun. injection Hrun as <-.
  exists items, (map (wp_record_spec (sum_s items)) items). auto.
Qed.

Lemma wp_s_values_names (db : database) (locs : list location_row) (items : list wp_item) :
  wp_s_values libm_pow db locs = Ok items ->
  Forall2 (fun loc item => item_location item = loc_name loc /\
                           wp_product libm_pow db loc (criteria db) 1 = Ok (item_s item))
    locs items.
Proof.
  revert items. induction locs as [|loc rest IH]; intros items; cbn [wp_s_values].
  - intros [= <-]. constructor.
  - destruct (wp_product libm_pow db loc (criteria db) 1) as [s|] eqn:Hs; [|discriminate].
    cbn [mbind result_bind].
    destruct (wp_s_values libm_pow db rest) as [its|]; [|discriminate].
    cbn [mbind result_bind]. intros [= <-]. constructor; [auto|]. apply IH. reflexivity.
Qed.
End WPFacts.

(** ** Where [math.pow] is defined *)

Lemma Qis_integer_opp (y : Q) : Qis_integer y = true -> Qis_integer (- y) = true.
Proof.
  unfold Qis_integer. intros H. qbool. apply Qeq_bool_iff.
  assert (E : - y == inject_Z (- Qfloor y)).
  { rewrite inject_Z_opp, H. reflexivity. }
  rewrite (Qfloor_comp _ _ E), Qfloor_Z. symmetry. exact E.
Qed.

Lemma Qis_integer_opp_eq (y : Q) : Qis_integer (- y) = Qis_integer y.
Proof.
  destruct (Qis_integer y) eqn:E; [apply Qis_integer_opp, E|].
  destruct (Qis_integer (- y)) eqn:En; [|reflexivity].
  apply Qis_integer_opp in En. rewrite <- E. symmetry.
  unfold Qis_integer in *. qbool. apply Qeq_bool_iff.
  assert (Eo : - - y == y) by lra.
  rewrite <- (Qfloor_comp _ _ Eo). rewrite En. exact Eo.
Qed.

Lemma Qis_integer_exponent (c : criterion_row) :
  Qis_integer (wp_exponent c) = Qis_integer (crit_weight c).
Proof.
  unfold wp_exponent. destruct (String.eqb _ _); [apply Qis_integer_opp_eq|reflexivity].
Qed.

Section WPTotal.
Variable libm_pow : Q -> Q -> Q.

(** A call of [math.pow] that the loop of WP makes, on a value that is not
    0. *)
Lemma math_pow_call (c : criterion_row) (v : Q) :
  Qeq_bool v 0 = false ->
  math_pow libm_pow v (wp_exponent c)
  = if Qle_bool 0 v || Qis_integer (crit_weight c)
    then math_result (power_value libm_pow c v)
    else Raise ValueError.
Proof.
  intros Hv. unfold math_pow, power_value.
  change (signed_weight c) with (wp_exponent c).
  rewrite Qis_integer_exponent, Hv. unfold Qltb at 2.
  destruct (Qis_integer (crit_weight c)).
  - rewrite orb_true_r. reflexivity.
  - rewrite orb_false_r. destruct (Qle_bool 0 v); reflexivity.
Qed.

Lemma wp_product_step (db : database) (loc : location_row) (c : criterion_row)
    (rest : list criterion_row) (s : Q) :
  wp_product libm_pow db loc (c :: rest) s
  = if negb (Qle_bool 0 (value_of db (loc_id loc) (crit_id c))
             || Qis_integer (crit_weight c))
    then Raise ValueError
    else if negb (power_in_range libm_pow db loc c) then Raise OverflowError
    else wp_product libm_pow db loc rest
           (if Qeq_bool (value_of db (loc_id loc) (crit_id c)) 0 then s
            else s * power_value libm_pow c (value_of db (loc_id loc) (crit_id c))).
Proof.
  cbn [wp_product]. unfold power_in_range.
  destruct (Qeq_bool (value_of db (loc_id loc) (crit_id c)) 0) eqn:E0.
  - assert (Hle : Qle_bool 0 (value_of db (loc_id loc) (crit_id c)) = true).
    { qbool. apply Qle_bool_iff. lra. }
    rewrite Hle. reflexivity.
  - rewrite (math_pow_call c _ E0).
    destruct (Qle_bool 0 _ || Qis_integer _); [|reflexivity].
    cbn [negb orb]. unfold math_result, Qltb.
    destruct (Qle_bool float_overflow _); reflexivity.
Qed.

(** What the loop over the criteria does for one location. *)
Lemma wp_product_outcome (db : database) (loc : location_row)
    (crits : list criterion_row) (s : Q) :
  match wp_product libm_pow db loc crits s with
  | Ok _ =>
      forallb (fun c => Qle_bool 0 (value_of db (loc_id loc) (crit_id c))
                        || Qis_integer (crit_weight c)) crits = true /\
      forallb (power_in_range libm_pow db loc) crits = true
  | Raise ex =>
      (ex = ValueError /\
       forallb (fun c => Qle_bool 0 (value_of db (loc_id loc) (crit_id c))
                         || Qis_integer (crit_weight c)) crits = false) \/
      (ex = OverflowError /\ forallb (power_in_range libm_pow db loc) crits = false)
  end.
Proof.
  revert s. induction crits as [|c rest IH]; intros s; [split; reflexivity|].
  rewrite wp_product_step. cbn [forallb].
  destruct (Qle_bool 0 _ || Qis_integer _); cbn [negb andb]; [|left; split; reflexivity].
  destruct (power_in_range libm_pow db loc c); cbn [negb andb];
    [|right; split; reflexivity].
  apply IH.
Qed.

(** What the loop over the locations does. *)
Lemma wp_s_values_outcome (db : database) (locs : list location_row) :
  match wp_s_values libm_pow db locs with
  | Ok _ =>
      forallb (fun loc =>
        forallb (fun c => Qle_bool 0 (value_of db (loc_id loc) (crit_id c))
                          || Qis_integer (crit_weight c)) (criteria db)) locs = true /\
      forallb (fun loc => forallb (power_in_range libm_pow db loc) (criteria db)) locs = true
  | Raise ex =>
      (ex = ValueError /\
       forallb (fun loc =>
         forallb (fun c => Qle_bool 0 (value_of db (loc_id loc) (crit_id c))
                           || Qis_integer (crit_weight c)) (criteria db)) locs = false) \/
      (ex = OverflowError /\
       forallb (fun loc => forallb (power_in_range libm_pow db loc) (criteria db)) locs
       = false)
  end.
Proof.
  induction locs as [|loc rest IH]; [split; reflexivity|].
  cbn [wp_s_values forallb].
  assert (Hp := wp_product_outcome db loc (criteria db) 1).
  destruct (wp_product libm_pow db loc (criteria db) 1) as [s|ex]; cbn [mbind result_bind].
  - destruct Hp as [-> ->]. cbn [andb].
    destruct (wp_s_values libm_pow db rest) as [items|ex]; exact IH.
  - destruct Hp as [[-> ->]|[-> ->]]; [left|right]; split; reflexivity.
Qed.

Lemma calculate_wp_outcome (db : database) :
  locations db <> [] -> criteria db <> [] ->
  match calculate_wp libm_pow db with
  | Ok _ => powers_defined db = true /\ powers_in_range libm_pow db = true
  | Raise ex =>
      (ex = ValueError /\ powers_defined db = false) \/
      (ex = OverflowError /\ powers_in_range libm_pow db = false)
  end.
Proof.
  intros Hl Hc. unfold calculate_wp, wp_unsorted, powers_defined, powers_in_range.
  assert (Hs := wp_s_values_outcome db (locations db)).
  destruct (locations db) as [|l locs] eqn:El; [congruence|].
  destruct (criteria db) as [|c crits] eqn:Ec; [congruence|].
  destruct (wp_s_values libm_pow db (l :: locs)) as [items|ex]; cbn [mbind result_bind].
  - rewrite wp_results_spec. exact Hs.
  - exact Hs.
Qed.

Lemma calculate_wp_raises (db : database) (ex : py_exn) :
  calculate_wp libm_pow db = Raise ex -> ex = ValueError \/ ex = OverflowError.
Proof.
  intros Hr.
  destruct (locations db) as [|l locs] eqn:El.
  { unfold calculate_wp in Hr. rewrite El in Hr. discriminate. }
  destruct (criteria db) as [|c crits] eqn:Ec.
  { unfold calculate_wp in Hr. rewrite El, Ec in Hr. discriminate. }
  assert (Ho := calculate_wp_outcome db). rewrite Hr in Ho.
  destruct Ho as [[-> _]|[-> _]]; [congruence|congruence|left|right]; reflexivity.
Qed.

Lemma calculate_wp_total (db : database) :
  powers_defined db = true -> powers_in_range libm_pow db = true ->
  returns (calculate_wp libm_pow db).
Proof.
  intros Hd Hr.
  destruct (locations db) as [|l locs] eqn:El.
  { unfold calculate_wp. rewrite El. eexists. reflexivity. }
  destruct (criteria db) as [|c crits] eqn:Ec.
  { unfold calculate_wp. rewrite El, Ec. eexists. reflexivity. }
  assert (Ho := calculate_wp_outcome db).
  destruct (calculate_wp libm_pow db) as [rs|ex]; [eexists; reflexivity|].
  destruct Ho as [[_ Ho]|[_ Ho]]; congruence.
Qed.

Lemma calculate_wp_value_error (db : database) :
  locations db <> [] -> criteria db <> [] ->
  powers_defined db = false -> powers_in_range libm_pow db = true ->
  calculate_wp libm_pow db = Raise ValueError.
Proof.
  intros Hl Hc Hd Hr. assert (Ho := calculate_wp_outcome db Hl Hc).
  destruct (calculate_wp libm_pow db) as [rs|ex].
  - destruct Ho as [Ho _]. congruence.
  - destruct Ho as [[-> _]|[_ Ho]]; [reflexivity|congruence].
Qed.

Lemma calculate_wp_overflow (db : database) :
  locations db <> [] -> criteria db <> [] ->
  powers_defined db = true -> powers_in_range libm_pow db = false ->
  calculate_wp libm_pow db = Raise OverflowError.
Proof.
  intros Hl Hc Hd Hr. assert (Ho := calculate_wp_outcome db Hl Hc).
  destruct (calculate_wp libm_pow db) as [rs|ex].
  - destruct Ho as [_ Ho]. congruence.
  - destruct Ho as [[_ Ho]|[-> _]]; [congruence|reflexivity].
Qed.

Lemma calculate_wp_fails (db : database) :
  locations db <> [] -> criteria db <> [] ->
  powers_defined db = false -> powers_in_range libm_pow db = false ->
  calculate_wp libm_pow db = Raise ValueError \/
  calculate_wp libm_pow db = Raise OverflowError.
Proof.
  intros Hl Hc Hd Hr. assert (Ho := calculate_wp_outcome db Hl Hc).
  destruct (calculate_wp libm_pow db) as [rs|ex].
  - destruct Ho as [Ho _]. congruence.
  - destruct Ho as [[-> _]|[-> _]]; [left|right]; reflexivity.
Qed.
End WPTotal.

Lemma calculate_saw_total (db : database) :
  some_criterion_has_values db = true -> returns (calculate_saw db).
Proof.
  intros Hv. unfold calculate_saw, saw_unsorted.
  destruct (saw_criteria_total db (criteria db) ∅) as [nm Hnm].
  unfold saw_matrix. rewrite Hnm. cbn [mbind result_bind].
  destruct (saw_results_total db nm (locations db)) as [rs ->].
  - intros loc Hl. eapply saw_criteria_row_made; [exact Hnm|apply in_map, Hl|].
    unfold some_criterion_has_values in Hv. apply existsb_exists in Hv as (c & Hc & Hcv).
    exists c. split; [exact Hc|]. destruct (criterion_values db (crit_id c)); congruence.
  - cbn [mbind result_bind].
    destruct (locations db); [eexists; reflexivity|].
    destruct (criteria db); eexists; reflexivity.
Qed.

(** ** The type of a criterion *)

Lemma normalize_reading (t : string) (v M m : Q) :
  normalize (saw_reading t) v M m = normalize t v M m.
Proof.
  unfold normalize, saw_reading. destruct (String.eqb t "benefit"); reflexivity.
Qed.

Lemma wp_exponent_reading (c : criterion_row) :
  wp_exponent (retype wp_reading c) = wp_exponent c.
Proof.
  unfold wp_exponent, retype, wp_reading. simpl.
  destruct (String.eqb (crit_type c) "cost"); reflexivity.
Qed.

Lemma saw_locations_retype (db : database) (c : criterion_row) (M m : Q)
    (locs : list location_row) (nm : gmap Z (gmap string Q)) :
  saw_locations (with_types saw_reading db) (retype saw_reading c) M m locs nm
  = saw_locations db c M m locs nm.
Proof.
  revert nm. induction locs as [|loc rest IH]; intros nm; [reflexivity|].
  cbn [saw_locations]. cbn [retype crit_type crit_id].
  rewrite normalize_reading.
  change (value_of (with_types saw_reading db)) with (value_of db).
  destruct (normalize _ _ _ _); [|reflexivity]. cbn [mbind result_bind].
  destruct (_ !! loc_id loc); [|reflexivity]. apply IH.
Qed.

Lemma saw_criteria_retype (db : database) (crits : list criterion_row)
    (nm : gmap Z (gmap string Q)) :
  saw_criteria (with_types saw_reading db) (map (retype saw_reading) crits) nm
  = saw_criteria db crits nm.
Proof.
  revert nm. induction crits as [|c rest IH]; intros nm; [reflexivity|].
  cbn [saw_criteria map].
  change (saw_bounds (with_types saw_reading db)) with (saw_bounds db).
  cbn [retype crit_id].
  destruct (saw_bounds db (crit_id c)) as [[[M m]|]|]; cbn [mbind result_bind].
  - change (locations (with_types saw_reading db)) with (locations db).
    change {| crit_id := crit_id c; crit_name := crit_name c;
              crit_weight := crit_weight c; crit_type := saw_reading (crit_type c) |}
      with (retype saw_reading c).
    rewrite saw_locations_retype.
    destruct (saw_locations db c M m (locations db) nm); [|reflexivity]. apply IH.
  - apply IH.
  - reflexivity.
Qed.

Lemma saw_sum_retype (f : string -> string) (nm : gmap Z (gmap string Q)) (lid : Z)
    (crits : list criterion_row) (acc : Q) :
  saw_sum nm lid (map (retype f) crits) acc = saw_sum nm lid crits acc.
Proof.
  revert acc. induction crits as [|c rest IH]; intros acc; [reflexivity|].
  cbn [saw_sum map]. destruct (nm !! lid); [|reflexivity]. apply IH.
Qed.

Lemma saw_results_retype (db : database) (nm : gmap Z (gmap string Q))
    (locs : list location_row) :
  saw_results (with_types saw_reading db) nm locs = saw_results db nm locs.
Proof.
  induction locs as [|loc rest IH]; [reflexivity|].
  cbn [saw_results]. rewrite IH.
  change (criteria (with_types saw_reading db)) with (map (retype saw_reading) (criteria db)).
  rewrite saw_sum_retype. reflexivity.
Qed.

Lemma calculate_saw_retype (db : database) :
  calculate_saw (with_types saw_reading db) = calculate_saw db.
Proof.
  unfold calculate_saw, saw_unsorted, saw_matrix.
  change (locations (with_types saw_reading db)) with (locations db).
  change (criteria (with_types saw_reading db)) with (map (retype saw_reading) (criteria db)).
  rewrite saw_criteria_retype.
  destruct (locations db); [reflexivity|].
  destruct (criteria db) as [|c cs]; [reflexivity|].
  cbn [map]. destruct (saw_criteria db (c :: cs) ∅) as [nm|]; [|reflexivity].
  cbn [mbind result_bind]. rewrite saw_results_retype. reflexivity.
Qed.

Section WPTypes.
Variable libm_pow : Q -> Q -> Q.

Lemma wp_product_retype (db : database) (loc : location_row)
    (crits : list criterion_row) (s : Q) :
  wp_product libm_pow (with_types wp_reading db) loc (map (retype wp_reading) crits) s
  = wp_product libm_pow db loc crits s.
Proof.
  revert s. induction crits as [|c rest IH]; intros s; [reflexivity|].
  cbn [wp_product map]. rewrite wp_exponent_reading.
  change (value_of (with_types wp_reading db)) with (value_of db).
  cbn [retype crit_id].
  destruct (Qeq_bool _ 0); [apply IH|].
  destruct (math_pow _ _ _); [|reflexivity]. apply IH.
Qed.

Lemma wp_s_values_retype (db : database) (locs : list location_row) :
  wp_s_values libm_pow (with_types wp_reading db) locs = wp_s_values libm_pow db locs.
Proof.
  induction locs as [|loc rest IH]; [reflexivity|].
  cbn [wp_s_values]. rewrite IH.
  change (criteria (with_types wp_reading db)) with (map (retype wp_reading) (criteria db)).
  rewrite wp_product_retype. reflexivity.
Qed.

Lemma calculate_wp_retype (db : database) :
  calculate_wp libm_pow (with_types wp_reading db) = calculate_wp libm_pow db.
Proof.
  unfold calculate_wp, wp_unsorted.
  change (locations (with_types wp_reading db)) with (locations db).
  rewrite wp_s_values_retype.
  change (criteria (with_types wp_reading db)) with (map (retype wp_reading) (criteria db)).
  destruct (locations db); [reflexivity|].
  destruct (criteria db); reflexivity.
Qed.
End WPTypes.

(** ** Records in the order of the locations *)

Lemma Forall2_map_spec {A B : Type} (P : A -> B -> Prop) (f : A -> B) (l : list A) :
  (forall x, In x l -> P x (f x)) -> Forall2 P l (map f l).
Proof.
  induction l as [|x l IH]; intros H; simpl; constructor.
  - apply H. left. reflexivity.
  - apply IH. intros y Hy. apply H. right. exact Hy.
Qed.

Lemma Forall2_map_right {A B C : Type} (P : A -> B -> Prop) (Q : A -> C -> Prop)
    (f : B -> C) (l : list A) (k : list B) :
  (forall x y, P x y -> Q x (f y)) -> Forall2 P l k -> Forall2 Q l (map f k).
Proof.
  intros H. induction 1; simpl; constructor; auto.
Qed.

Lemma Forall2_In_left {A B : Type} (P : A -> B -> Prop) (l : list A) (k : list B) (x : A) :
  Forall2 P l k -> In x l -> exists y, In y k /\ P x y.
Proof.
  induction 1 as [|a b l k Hab _ IH]; intros Hx; [destruct Hx|].
  destruct Hx as [->|Hx].
  - exists b. split; [left; reflexivity|exact Hab].
  - destruct (IH Hx) as (y & Hy & Hp). exists y. split; [right; exact Hy|exact Hp].
Qed.

(** ** The scores of WP *)



(** ** The scenarios of the specification *)

Example saw_benefit_scenario :
  calculate_saw Scenario.benefit_db
  = Ok [ {| saw_location := "A"; saw_score := 1.0000; saw_details := {[ "c1" := 10 / 10 ]} |};
         {| saw_location := "B"; saw_score := 0.5000; saw_details := {[ "c1" := 5 / 10 ]} |} ].
Proof. vm_compute. reflexivity. Qed.

Example saw_cost_scenario :
  calculate_saw Scenario.cost_db
  = Ok [ {| saw_location := "B"; saw_score := 1.0000; saw_details := {[ "c1" := 5 / 5 ]} |};
         {| saw_location := "A"; saw_score := 0.5000; saw_details := {[ "c1" := 5 / 10 ]} |} ].
Proof. vm_compute. reflexivity. Qed.

Example wp_benefit_scenario :
  calculate_wp Scenario.interpolated_pow Scenario.benefit_db
  = Ok [ {| wp_location := "A"; wp_score := 0.6667; wp_s := 10 |};
         {| wp_location := "B"; wp_score := 0.3333; wp_s := 5 |} ].
Proof. vm_compute. reflexivity. Qed.

(** A missing value is read as 0: location B gets the normalised value 0. *)
Example saw_missing_scenario :
  calculate_saw Scenario.missing_db
  = Ok [ {| saw_location := "A"; saw_score := 1.0000; saw_details := {[ "c1" := 5 / 5 ]} |};
         {| saw_location := "B"; saw_score := 0.0000; saw_details := {[ "c1" := 0 ]} |} ].
Proof. vm_compute. reflexivity. Qed.

(** ** Claims *)

(** C1 as stated fails: location B has no stored value, and the minimum used
    is 5, not the 0 that the default value of B would give. *)
Lemma C1_counterexample :
  saw_bounds Scenario.missing_db "c1" = Ok (Some (5, 5)) /\
  py_min (full_values Scenario.missing_db "c1") = Ok 0 /\
  ~ 5 == 0.
Proof.
  split; [reflexivity|]. split; [reflexivity|]. discriminate.
Qed.

(** C1 (amended).  The bounds [max_value] and [min_value] that SAW uses for a
    criterion are the maximum and the minimum of the values stored for it in
    [location_criteria]; a location without a stored value contributes
    nothing to them.  They are the maximum and the minimum of [value(l,c)]
    over the full location set when every location has a stored value and the
    key constraints of the table hold. *)
Theorem C1_bounds_over_stored_values (db : database) (cid : string) (M m : Q) :
  saw_bounds db cid = Ok (Some (M, m)) ->
  (In M (criterion_values db cid) /\ forall v, In v (criterion_values db cid) -> v <= M) /\
  (In m (criterion_values db cid) /\ forall v, In v (criterion_values db cid) -> m <= v) /\
  (every_location_has_value db cid = true ->
   lc_primary_key db -> lc_foreign_key db = true ->
   (In M (full_values db cid) /\ forall v, In v (full_values db cid) -> v <= M) /\
   (In m (full_values db cid) /\ forall v, In v (full_values db cid) -> m <= v)).
Proof.
  intros Hb. apply saw_bounds_some in Hb as [HM Hm].
  apply py_max_spec in HM as [HM1 HM2]. apply py_min_spec in Hm as [Hm1 Hm2].
  repeat split; auto using stored_full_values, full_values_stored.
Qed.

Lemma C1_bounds_over_stored_values_witness :
  (In 10 (criterion_values Scenario.benefit_db "c1") /\
   forall v, In v (criterion_values Scenario.benefit_db "c1") -> v <= 10) /\
  (In 5 (full_values Scenario.benefit_db "c1") /\
   forall v, In v (full_values Scenario.benefit_db "c1") -> 5 <= v).
Proof.
  destruct (C1_bounds_over_stored_values Scenario.benefit_db "c1" 10 5 eq_refl)
    as (HM & _ & Hfull).
  split; [exact HM|].
  apply Hfull; [reflexivity| |reflexivity].
  apply (bool_decide_unpack _). vm_compute. exact I.
Defined.

(** C2.  For every location [l] and every criterion [c] that has stored
    values, [max_c] and [min_c] being the bounds computed for [c], the entry
    of the normalised matrix is [value(l,c) / max_c] when [max_c > 0] and 0
    otherwise for the type "benefit", and [min_c / value(l,c)] when
    [min_c > 0] and [value(l,c) > 0] and 0 otherwise for the type "cost",
    [value(l,c)] being the stored value or 0.  A criterion without any stored
    value gets no entry, which the score reads as 0. *)
Theorem C2_normalized_value (db : database) (l : location_row) (c : criterion_row) :
  criteria_primary_key db -> In l (locations db) -> In c (criteria db) ->
  (forall max_c min_c, saw_bounds db (crit_id c) = Ok (Some (max_c, min_c)) ->
     let value := value_of db (loc_id l) (crit_id c) in
     (crit_type c = "benefit" ->
      saw_entry db (loc_id l) (crit_id c)
      = Ok (Some (if Qltb 0 max_c then value / max_c else 0))) /\
     (crit_type c = "cost" ->
      saw_entry db (loc_id l) (crit_id c)
      = Ok (Some (if Qltb 0 min_c && Qltb 0 value then min_c / value else 0)))) /\
  (criterion_values db (crit_id c) = [] ->
   saw_entry db (loc_id l) (crit_id c) = Ok None).
Proof.
  intros Hpk Hl Hc. unfold saw_entry.
  destruct (saw_criteria_total db (criteria db) ∅) as [nm Hnm].
  unfold saw_matrix. rewrite Hnm. cbn [mbind result_bind]. split.
  - intros M m Hb.
    pose proof (saw_matrix_entry db nm l c M m Hnm Hpk Hl Hc Hb) as He.
    unfold written in He. split; intros Ht; rewrite Ht in He; rewrite He; reflexivity.
  - intros Hv. rewrite (saw_matrix_entry_none db nm _ _ Hnm Hv). reflexivity.
Qed.

Lemma C2_normalized_value_witness :
  saw_entry Scenario.cost_db 1 "c1" = Ok (Some (5 / 10)).
Proof.
  destruct (C2_normalized_value Scenario.cost_db (Scenario.loc 1 "A")
              (Scenario.crit "c1" 1 "cost")) as (Hentry & _).
  - apply (bool_decide_unpack _). vm_compute. exact I.
  - simpl. auto.
  - simpl. auto.
  - destruct (Hentry 10 5 eq_refl) as [_ Hcost]. exact (Hcost eq_refl).
Defined.





(** C5 as stated fails: WP lets two exceptions of [math.pow] escape, its
    ValueError for a negative value under a weight that is not an integer
    (value -2, weight 1/2) and its OverflowError for a power that overflows
    (value 10, weight 400); SAW raises KeyError when no criterion has a stored
    value. *)
Lemma C5_counterexample :
  calculate_wp Scenario.interpolated_pow Scenario.root_db = Raise ValueError /\
  calculate_wp Scenario.interpolated_pow Scenario.overflow_db = Raise OverflowError /\
  calculate_saw Scenario.empty_values_db = Raise KeyError.
Proof.
  split; [|split]; vm_compute; reflexivity.
Qed.

(** C5 (amended).  SAW returns a result list when at least one criterion has
    a stored value.  WP returns a result list when no negative value meets a
    weight that is not an integer and no power overflows.  Otherwise, for
    non-empty location and criterion sets, an exception of [math.pow] escapes
    from WP, and WP never raises another one: ValueError when only the first
    condition fails, OverflowError when only the second fails, one of the two
    when both fail. *)
Theorem C5_returns (libm_pow : Q -> Q -> Q) (db : database) :
  (some_criterion_has_values db = true -> returns (calculate_saw db)) /\
  (powers_defined db = true -> powers_in_range libm_pow db = true ->
   returns (calculate_wp libm_pow db)) /\
  (forall ex, calculate_wp libm_pow db = Raise ex ->
   ex = ValueError \/ ex = OverflowError) /\
  (locations db <> [] -> criteria db <> [] ->
   (powers_defined db = false -> powers_in_range libm_pow db = true ->
    calculate_wp libm_pow db = Raise ValueError) /\
   (powers_defined db = true -> powers_in_range libm_pow db = false ->
    calculate_wp libm_pow db = Raise OverflowError) /\
   (powers_defined db = false -> powers_in_range libm_pow db = false ->
    calculate_wp libm_pow db = Raise ValueError \/
    calculate_wp libm_pow db = Raise OverflowError)).
Proof.
  split; [apply calculate_saw_total|].
  split; [apply calculate_wp_total|].
  split; [intros ex; apply calculate_wp_raises|].
  intros Hl Hc.
  split; [apply calculate_wp_value_error; assumption|].
  split; [apply calculate_wp_overflow; assumption|].
  apply calculate_wp_fails; assumption.
Qed.

Lemma C5_returns_witness :
  returns (calculate_saw Scenario.negative_db) /\
  returns (calculate_wp Scenario.interpolated_pow Scenario.negative_db) /\
  calculate_wp Scenario.interpolated_pow Scenario.root_db = Raise ValueError /\
  calculate_wp Scenario.interpolated_pow Scenario.overflow_db = Raise OverflowError.
Proof.
  split; [|split; [|split]].
  - apply (C5_returns Scenario.interpolated_pow Scenario.negative_db). reflexivity.
  - apply (C5_returns Scenario.interpolated_pow Scenario.negative_db);
      vm_compute; reflexivity.
  - apply (C5_returns Scenario.interpolated_pow Scenario.root_db);
      try discriminate; vm_compute; reflexivity.
  - apply (C5_returns Scenario.interpolated_pow Scenario.overflow_db);
      try discriminate; vm_compute; reflexivity.
Defined.

(** C6.  The list returned by SAW and the list returned by WP are the list
    of the records in the order of the locations, each of them carrying its
    rounded score (0 in WP when the total is not positive), put in descending
    order of that score; records of equal score keep the order of the input
    location sequence. *)
Theorem C6_ranking (libm_pow : Q -> Q -> Q) (db : database) :
  criteria db <> [] ->
  (forall rs, calculate_saw db = Ok rs ->
     exists pre,
       saw_unsorted db = Ok pre /\
       Forall2 (fun loc r => saw_location r = loc_name loc /\
                             exists q, saw_score r = round4 q) (locations db) pre /\
       stable_descending saw_score pre rs) /\
  (forall rs, calculate_wp libm_pow db = Ok rs ->
     exists pre,
       wp_unsorted libm_pow db = Ok pre /\
       Forall2 (fun loc r => wp_location r = loc_name loc /\
                             (wp_score r = 0 \/ exists q, wp_score r = round4 q))
         (locations db) pre /\
       stable_descending wp_score pre rs).
Proof.
  intros Hc. split; intros rs Hrun.
  - destruct (locations db) as [|l0 ls] eqn:El.
    + unfold calculate_saw in Hrun. rewrite El in Hrun. injection Hrun as <-.
      exists []. split; [|split; [constructor|]].
      * unfold saw_unsorted, saw_matrix.
        destruct (saw_criteria_total db (criteria db) ∅) as [nm ->].
        rewrite El. reflexivity.
      * apply (sorted_desc_stable_descending saw_score []).
    + rewrite <- El in *.
      assert (Hl : locations db <> []) by (rewrite El; discriminate).
      destruct (calculate_saw_inv db rs Hrun Hl Hc) as (nm & pre & _ & Hpre & -> & ->).
      eexists. split; [exact Hpre|]. split; [|apply sorted_desc_stable_descending].
      apply Forall2_map_spec. intros loc _. split; [reflexivity|]. simpl. eauto.
  - destruct (locations db) as [|l0 ls] eqn:El.
    + unfold calculate_wp in Hrun. rewrite El in Hrun. injection Hrun as <-.
      exists []. split; [|split; [constructor|]].
      * unfold wp_unsorted. rewrite El. reflexivity.
      * apply (sorted_desc_stable_descending wp_score []).
    + rewrite <- El in *.
      assert (Hl : locations db <> []) by (rewrite El; discriminate).
      destruct (calculate_wp_inv libm_pow db rs Hrun Hl Hc)
        as (items & pre & Hit & Hpre & -> & ->).
      eexists. split; [exact Hpre|]. split; [|apply sorted_desc_stable_descending].
      apply wp_s_values_names in Hit.
      eapply Forall2_map_right; [|exact Hit].
      intros loc item [Hn _]. split; [exact Hn|]. simpl.
      destruct (Qltb 0 (sum_s items)); eauto.
Qed.

Lemma C6_ranking_witness :
  exists rs pre, calculate_saw Scenario.cost_db = Ok rs /\
    stable_descending saw_score pre rs.
Proof.
  eexists.
  destruct (C6_ranking Scenario.interpolated_pow Scenario.cost_db) as [Hsaw _].
  - discriminate.
  - destruct (Hsaw _ eq_refl) as (pre & _ & _ & Hst).
    exists pre. split; [reflexivity|exact Hst].
Defined.



(** C8 as stated fails for WP: a criterion whose type is neither "benefit"
    nor "cost" keeps the exponent [+weight]. *)
Lemma C8_counterexample :
  crit_type (Scenario.crit "c1" 2 "neutral") <> "benefit" /\
  wp_exponent (Scenario.crit "c1" 2 "neutral") = 2 /\
  ~ 2 == - crit_weight (Scenario.crit "c1" 2 "neutral") /\
  calculate_wp Scenario.interpolated_pow Scenario.other_type_db
  = Ok [ {| wp_location := "A"; wp_score := 0.8000; wp_s := 100 |};
         {| wp_location := "B"; wp_score := 0.2000; wp_s := 25 |} ].
Proof.
  split; [discriminate|]. split; [reflexivity|]. split; [discriminate|reflexivity].
Qed.

(** C8 (amended).  For a criterion whose type is not "benefit", SAW applies
    the cost formula [min_c / value(l,c)]; WP negates the exponent exactly
    when the type is "cost" and keeps [+weight] for every other string.
    Neither reports a validation error: each returns what it returns on the
    dataset in which the types are replaced by the way it reads them. *)
Theorem C8_other_types (libm_pow : Q -> Q -> Q) (c : criterion_row) :
  crit_type c <> "benefit" ->
  (forall v M m,
     normalize (crit_type c) v M m
     = Ok (if Qltb 0 m && Qltb 0 v then m / v else 0)) /\
  (crit_type c = "cost" -> wp_exponent c = - crit_weight c) /\
  (crit_type c <> "cost" -> wp_exponent c = crit_weight c) /\
  (forall db, calculate_saw (with_types saw_reading db) = calculate_saw db) /\
  (forall db, calculate_wp libm_pow (with_types wp_reading db) = calculate_wp libm_pow db).
Proof.
  intros Ht. apply String.eqb_neq in Ht.
  split; [|split; [|split; [|split]]].
  - intros v M m. rewrite normalize_value, Ht. reflexivity.
  - intros E. unfold wp_exponent. rewrite E. reflexivity.
  - intros E. apply String.eqb_neq in E. unfold wp_exponent. rewrite E. reflexivity.
  - apply calculate_saw_retype.
  - apply calculate_wp_retype.
Qed.

Lemma C8_other_types_witness :
  normalize "neutral" 10 10 5 = Ok (5 / 10) /\
  wp_exponent (Scenario.crit "c1" 2 "neutral") = 2.
Proof.
  destruct (C8_other_types Scenario.interpolated_pow (Scenario.crit "c1" 2 "neutral"))
    as (Hn & _ & Hw & _).
  - discriminate.
  - split; [apply (Hn 10 10 5)|apply Hw; discriminate].
Defined.

(** C9 as stated fails: a negative raw value has a negative normalised value,
    and when the maximum is 0 the location that attains it gets 0, not 1. *)
Lemma C9_counterexample :
  (saw_entry Scenario.negative_db 1 "c1" = Ok (Some (-5 # 10)) /\ -5 # 10 < 0) /\
  (saw_bounds Scenario.zero_db "c1" = Ok (Some (0, 0)) /\
   value_of Scenario.zero_db 1 "c1" = 0 /\
   saw_entry Scenario.zero_db 1 "c1" = Ok (Some 0) /\
   ~ 0 == 1).
Proof.
  split; [split|split; [|split; [|split]]].
  - vm_compute. reflexivity.
  - reflexivity.
  - reflexivity.
  - reflexivity.
  - vm_compute. reflexivity.
  - discriminate.
Qed.

(** C9 (amended).  For a criterion of type "benefit" that has stored values,
    the normalised value of every location is at most 1; it is at least 0
    when the raw value of the location is not negative; and it is 1 for a
    location whose value is the maximum when that maximum is positive. *)
Theorem C9_benefit_bound (db : database) (l : location_row) (c : criterion_row)
    (max_c min_c : Q) :
  criteria_primary_key db -> In l (locations db) -> In c (criteria db) ->
  crit_type c = "benefit" ->
  saw_bounds db (crit_id c) = Ok (Some (max_c, min_c)) ->
  exists n, saw_entry db (loc_id l) (crit_id c) = Ok (Some n) /\
    n <= 1 /\
    (0 <= value_of db (loc_id l) (crit_id c) -> 0 <= n) /\
    (value_of db (loc_id l) (crit_id c) == max_c -> 0 < max_c -> n == 1).
Proof.
  intros Hpk Hl Hc Ht Hb. unfold saw_entry.
  destruct (saw_criteria_total db (criteria db) ∅) as [nm Hnm].
  pose proof (saw_matrix_entry db nm l c max_c min_c Hnm Hpk Hl Hc Hb) as He.
  unfold saw_matrix. rewrite Hnm. cbn [mbind result_bind].
  unfold written in He. rewrite Ht in He. simpl in He.
  exists (benefit_formula (value_of db (loc_id l) (crit_id c)) max_c).
  split; [rewrite He; reflexivity|].
  unfold benefit_formula. destruct (Qltb 0 max_c) eqn:E; qbool.
  - pose proof (value_of_le_max db (loc_id l) (crit_id c) max_c min_c Hb E) as Hle.
    repeat split.
    + apply Qle_shift_div_r; [exact E|lra].
    + intros H0. apply Qle_shift_div_l; [exact E|lra].
    + intros Hv _. rewrite Hv. field. lra.
  - repeat split; [lra|lra|intros _ H; lra].
Qed.

Lemma C9_benefit_bound_witness :
  exists n, saw_entry Scenario.benefit_db 1 "c1" = Ok (Some n) /\
    n <= 1 /\ 0 <= n /\ n == 1.
Proof.
  destruct (C9_benefit_bound Scenario.benefit_db (Scenario.loc 1 "A")
              (Scenario.crit "c1" 1 "benefit") 10 5)
    as (n & He & Hle & Hge & Hone).
  - apply (bool_decide_unpack _). vm_compute. exact I.
  - simpl. auto.
  - simpl. auto.
  - reflexivity.
  - reflexivity.
  - exists n. repeat split; try assumption.
    + apply Hge. vm_compute. discriminate.
    + apply Hone; reflexivity.
Defined.

(** C10.  A location whose value is 0 for every criterion has the raw score
    1, the untouched accumulator, and is ranked with it; in the scenario
    below it comes before a location whose product is 1/2. *)
Theorem C10_all_zero_location (libm_pow : Q -> Q -> Q) (db : database)
    (loc : location_row) :
  (forall c, In c (criteria db) -> value_of db (loc_id loc) (crit_id c) == 0) ->
  wp_product libm_pow db loc (criteria db) 1 = Ok 1 /\
  (forall rs, In loc (locations db) -> criteria db <> [] ->
     calculate_wp libm_pow db = Ok rs ->
     exists r, In r rs /\ wp_location r = loc_name loc /\ wp_s r = 1) /\
  calculate_wp libm_pow Scenario.outrank_db
  = Ok [ {| wp_location := "B"; wp_score := 0.6667; wp_s := 1 |};
         {| wp_location := "A"; wp_score := 0.3333; wp_s := 1 # 2 |} ].
Proof.
  intros Hzero.
  assert (Hskip : forall s, wp_product libm_pow db loc (criteria db) s = Ok s).
  { induction (criteria db) as [|c rest IH]; intros s; [reflexivity|].
    cbn [wp_product].
    assert (E : Qeq_bool (value_of db (loc_id loc) (crit_id c)) 0 = true).
    { apply Qeq_bool_iff, Hzero. left. reflexivity. }
    rewrite E. apply IH. intros c' Hc'. apply Hzero. right. exact Hc'. }
  pose proof (Hskip 1) as HS.
  split; [exact HS|]. split; [|reflexivity].
  intros rs Hloc Hc Hrun.
  assert (Hl : locations db <> []) by (intros E; rewrite E in Hloc; destruct Hloc).
  destruct (calculate_wp_inv libm_pow db rs Hrun Hl Hc) as (items & pre & Hit & _ & -> & ->).
  apply wp_s_values_names in Hit.
  destruct (Forall2_In_left _ _ _ loc Hit Hloc) as (item & Hitem & Hname & Hs).
  rewrite HS in Hs. injection Hs as Hs.
  exists (wp_record_spec (sum_s items) item). split.
  - apply (Permutation_in _ (Permutation_sym (sorted_desc_perm wp_score _))).
    apply in_map, Hitem.
  - split; [exact Hname|]. simpl. congruence.
Qed.

Lemma C10_all_zero_location_witness :
  wp_product Scenario.interpolated_pow Scenario.outrank_db (Scenario.loc 2 "B")
    (criteria Scenario.outrank_db) 1 = Ok 1.
Proof.
  apply (C10_all_zero_location Scenario.interpolated_pow Scenario.outrank_db
           (Scenario.loc 2 "B")).
  intros c [<-|[]]. reflexivity.
Defined.

(** * The record endpoints *)

(** ** Rows and keys *)

Lemma fold_left_max_ge (l : list Z) (a : Z) :
  (a <= fold_left Z.max l a)%Z /\ forall x, In x l -> (x <= fold_left Z.max l a)%Z.
Proof.
  revert a. induction l as [|y l IH]; intros a; simpl.
  - split; [reflexivity|intros x []].
  - destruct (IH (Z.max a y)) as [Ha Hl]. split.
    + etransitivity; [apply Z.le_max_l|exact Ha].
    + intros x [<-|Hx]; [|auto].
      etransitivity; [apply Z.le_max_r|exact Ha].
Qed.

Lemma next_rowid_above (rows : list location_row) (r : location_row) :
  In r rows -> (loc_id r < next_rowid rows)%Z.
Proof.
  destruct rows as [|r0 rest]; [intros []|]. unfold next_rowid.
  destruct (fold_left_max_ge (map loc_id rest) (loc_id r0)) as [H0 Hrest].
  intros [<-|Hr].
  - lia.
  - assert (Hle := Hrest (loc_id r) (in_map loc_id rest r Hr)). lia.
Qed.

Lemma lc_foreign_key_spec (db : database) :
  lc_foreign_key db = true <->
  forall r, In r (location_criteria db) ->
            In (lc_location_id r) (map loc_id (locations db)).
Proof.
  unfold lc_foreign_key. rewrite forallb_forall. split; intros H r Hr.
  - apply H in Hr. apply existsb_exists in Hr as (l & Hl & E).
    apply Z.eqb_eq in E. rewrite <- E. apply in_map, Hl.
  - apply H in Hr. apply in_map_iff in Hr as (l & E & Hl).
    apply existsb_exists. exists l. split; [exact Hl|]. apply Z.eqb_eq, E.
Qed.

Lemma lc_has_key_spec (rows : list lc_row) (lid : Z) (cid : string) :
  lc_has_key rows lid cid = true <-> In (lid, cid) (map lc_key rows).
Proof.
  unfold lc_has_key. rewrite existsb_exists. split.
  - intros (r & Hr & E). apply andb_true_iff in E as [El Ec].
    apply Z.eqb_eq in El. apply String.eqb_eq in Ec. subst.
    apply (in_map lc_key), Hr.
  - intros H. apply in_map_iff in H as (r & E & Hr). exists r. split; [exact Hr|].
    unfold lc_key in E. injection E as <- <-.
    rewrite Z.eqb_refl, String.eqb_refl. reflexivity.
Qed.

Lemma lc_has_key_false (rows : list lc_row) (lid : Z) (cid : string) :
  lc_has_key rows lid cid = false <-> ~ In (lid, cid) (map lc_key rows).
Proof.
  rewrite <- lc_has_key_spec. destruct (lc_has_key rows lid cid); split; congruence.
Qed.

(** The loop of insertions appends the rows of the items, in their order. *)
Lemma insert_values_rows (lid : Z) (items : list (string * Q)) (rows rows' : list lc_row) :
  insert_values lid items rows = Some rows' ->
  rows' = (rows ++ map (value_row lid) items)%list.
Proof.
  revert rows. induction items as [|[cid v] items IH]; intros rows; simpl.
  - intros [= <-]. rewrite app_nil_r. reflexivity.
  - destruct (lc_has_key rows lid cid); [discriminate|].
    intros H. apply IH in H. rewrite H, <- app_assoc. reflexivity.
Qed.

(** It fails exactly on an item whose key is already taken, so it succeeds
    when the keys of the items are distinct and none is stored yet. *)
Lemma insert_values_succeeds (lid : Z) (items : list (string * Q)) (rows : list lc_row) :
  NoDup (map fst items) ->
  (forall kv, In kv items -> ~ In (lid, fst kv) (map lc_key rows)) ->
  insert_values lid items rows = Some (rows ++ map (value_row lid) items)%list.
Proof.
  revert rows. induction items as [|[cid v] items IH]; intros rows Hnd Hfree; simpl.
  - rewrite app_nil_r. reflexivity.
  - cbn [map fst] in Hnd. apply NoDup_cons in Hnd as [Hcid Hnd].
    rewrite list_elem_of_In in Hcid.
    assert (E : lc_has_key rows lid cid = false).
    { apply lc_has_key_false. apply (Hfree (cid, v)). left. reflexivity. }
    rewrite E, IH; [rewrite <- app_assoc; reflexivity|exact Hnd|].
    intros kv Hkv. rewrite map_app, in_app_iff. intros [H|[H|[]]].
    + apply (Hfree kv); [right; exact Hkv|exact H].
    + unfold lc_key in H. simpl in H. injection H as H.
      apply Hcid. rewrite H. apply in_map, Hkv.
Qed.

Lemma insert_values_fails (lid : Z) (items : list (string * Q)) (rows : list lc_row) :
  insert_values lid items rows = None ->
  ~ NoDup (map fst items) \/
  exists kv, In kv items /\ In (lid, fst kv) (map lc_key rows).
Proof.
  intros Hnone.
  destruct (decide (NoDup (map fst items))) as [Hnd|Hnd]; [right|left; exact Hnd].
  destruct (existsb (fun kv => lc_has_key rows lid (fst kv)) items) eqn:E.
  - apply existsb_exists in E as (kv & Hkv & Hk). exists kv. split; [exact Hkv|].
    apply lc_has_key_spec, Hk.
  - rewrite insert_values_succeeds in Hnone; [discriminate|exact Hnd|].
    intros kv Hkv. apply lc_has_key_false.
    destruct (lc_has_key rows lid (fst kv)) eqn:Ek; [|reflexivity].
    assert (Hex : existsb (fun kv => lc_has_key rows lid (fst kv)) items = true).
    { apply existsb_exists. exists kv. auto. }
    congruence.
Qed.

Lemma insert_values_key (lid : Z) (items : list (string * Q)) (rows rows' : list lc_row) :
  NoDup (map lc_key rows) -> insert_values lid items rows = Some rows' ->
  NoDup (map lc_key rows').
Proof.
  revert rows. induction items as [|[cid v] items IH]; intros rows Hnd; simpl.
  - intros [= <-]. exact Hnd.
  - destruct (lc_has_key rows lid cid) eqn:E; [discriminate|].
    apply IH. rewrite map_app. apply NoDup_app. split; [exact Hnd|]. split.
    + intros k Hk Hk'. rewrite list_elem_of_In in Hk, Hk'.
      destruct Hk' as [<-|[]]. apply lc_has_key_false in E. contradiction.
    + apply NoDup_singleton.
Qed.

Lemma dict_of_value_rows (lid : Z) (items : list (string * Q)) :
  dict_of_rows (map (value_row lid) items) = dict_of_items items.
Proof.
  unfold dict_of_rows, dict_of_items. generalize (∅ : gmap string Q).
  induction items as [|kv items IH]; intros d; [reflexivity|]. simpl. apply IH.
Qed.

Lemma filter_none {A : Type} (f : A -> bool) (l : list A) :
  (forall x, In x l -> f x = false) -> List.filter f l = [].
Proof.
  induction l as [|x l IH]; intros H; [reflexivity|]. simpl.
  rewrite (H x) by (left; reflexivity). apply IH. intros y Hy. apply H. right. exact Hy.
Qed.

Lemma filter_all {A : Type} (f : A -> bool) (l : list A) :
  (forall x, In x l -> f x = true) -> List.filter f l = l.
Proof.
  induction l as [|x l IH]; intros H; [reflexivity|]. simpl.
  rewrite (H x) by (left; reflexivity). f_equal. apply IH. intros y Hy. apply H. right. exact Hy.
Qed.

(** Under the foreign key no stored value belongs to the id that the next
    location will get. *)
Lemma next_rowid_unused (db : database) (r : lc_row) :
  lc_foreign_key db = true -> In r (location_criteria db) ->
  lc_location_id r <> next_rowid (locations db).
Proof.
  intros Hfk Hr. apply (proj1 (lc_foreign_key_spec db) Hfk) in Hr.
  apply in_map_iff in Hr as (l & E & Hl). apply next_rowid_above in Hl. lia.
Qed.

(** ** Locations *)

Lemma create_location_schema (db db' : database) (location : LocationBase)
    (r : Z * LocationBase) :
  schema_holds db -> create_location db location = Committed r db' -> schema_holds db'.
Proof.
  intros (Hord & Hcpk & Hpk & Hfk). unfold create_location.
  destruct (insert_values _ _ _) as [rows|] eqn:Hins; [|discriminate].
  intros [= _ <-]. repeat split.
  - unfold locations_ordered. cbn [locations]. rewrite map_app.
    apply StronglySorted_app_2; [|exact Hord|repeat constructor].
    intros x1 x2 H1 H2. rewrite list_elem_of_In in H1, H2.
    destruct H2 as [<-|[]]. apply in_map_iff in H1 as (l & <- & Hl).
    apply next_rowid_above, Hl.
  - exact Hcpk.
  - unfold lc_primary_key. cbn [location_criteria].
    eapply insert_values_key; [exact Hpk|exact Hins].
  - apply insert_values_rows in Hins. subst rows.
    apply lc_foreign_key_spec. cbn [location_criteria locations]. intros r0 Hr.
    rewrite map_app, in_app_iff. apply in_app_iff in Hr as [Hr|Hr].
    + left. apply (proj1 (lc_foreign_key_spec db) Hfk), Hr.
    + right. apply in_map_iff in Hr as (kv & <- & _). left. reflexivity.
Qed.

Lemma create_location_runs (db : database) (location : LocationBase) :
  lc_foreign_key db = true -> distinct_keys (lb_criteria location) ->
  create_location db location
  = Committed (next_rowid (locations db), location)
      {| locations :=
           (locations db ++ [{| loc_id := next_rowid (locations db);
                                loc_name := lb_name location;
                                loc_address := lb_address location;
                                loc_latitude := lb_latitude location;
                                loc_longitude := lb_longitude location |}])%list;
         criteria := criteria db;
         location_criteria :=
           (location_criteria db
            ++ map (value_row (next_rowid (locations db))) (lb_criteria location))%list |}.
Proof.
  intros Hfk Hkeys. unfold create_location.
  rewrite insert_values_succeeds; [reflexivity|exact Hkeys|].
  intros kv _ Hin. apply in_map_iff in Hin as (r & E & Hr).
  apply (next_rowid_unused db r Hfk Hr). unfold lc_key in E.
  injection E as E _. exact E.
Qed.

(** [create_location] on a database that satisfies its schema, with a body
    whose criteria keys are distinct, commits; the new location gets an id
    above every id in use, and the new database satisfies the schema. *)
Theorem create_location_commits (db : database) (location : LocationBase) :
  schema_holds db -> distinct_keys (lb_criteria location) ->
  exists db',
    create_location db location = Committed (next_rowid (locations db), location) db' /\
    (forall l, In l (locations db) -> (loc_id l < next_rowid (locations db))%Z) /\
    schema_holds db'.
Proof.
  intros Hschema Hkeys.
  assert (Hrun := create_location_runs db location (proj2 (proj2 (proj2 Hschema))) Hkeys).
  eexists. split; [exact Hrun|].
  split; [intros l Hl; apply next_rowid_above, Hl|].
  eapply create_location_schema; [exact Hschema|exact Hrun].
Qed.

(** After a committed [create_location], [get_locations] answers what it
    answered before followed by the new location, with the fields and the
    criteria of the body; the criteria table is untouched. *)
Theorem create_location_get_locations (db db' : database) (location : LocationBase)
    (id : Z) :
  schema_holds db ->
  create_location db location = Committed (id, location) db' ->
  get_locations db' = (get_locations db ++ [location_of id location])%list /\
  get_criteria db' = get_criteria db.
Proof.
  intros (_ & _ & _ & Hfk). unfold create_location.
  destruct (insert_values _ _ _) as [rows|] eqn:Hins; [|discriminate].
  intros [= <- <-]. apply insert_values_rows in Hins. subst rows.
  split; [|reflexivity].
  unfold get_locations. cbn [locations]. rewrite map_app. f_equal.
  - apply map_ext_in. intros l Hl. f_equal.
    unfold rows_of_location. cbn [location_criteria]. rewrite List.filter_app.
    rewrite (filter_none _ (map _ _)); [rewrite app_nil_r; reflexivity|].
    intros r Hr. apply in_map_iff in Hr as (kv & <- & _). simpl.
    apply Z.eqb_neq. apply next_rowid_above in Hl. lia.
  - simpl. unfold location_of. f_equal. f_equal.
    unfold rows_of_location. cbn [location_criteria]. rewrite List.filter_app.
    rewrite filter_none, filter_all.
    + apply dict_of_value_rows.
    + intros r Hr. apply in_map_iff in Hr as (kv & <- & _). simpl. apply Z.eqb_refl.
    + intros r Hr. apply Z.eqb_neq. apply (next_rowid_unused db r Hfk Hr).
Qed.

Lemma rowcount_zero {A : Type} (p : A -> bool) (l : list A) :
  Nat.eqb (length (List.filter p l)) 0 = true <-> forall x, In x l -> p x = false.
Proof.
  rewrite Nat.eqb_eq. split.
  - intros H x Hx. destruct (p x) eqn:E; [|reflexivity].
    assert (Hin : In x (List.filter p l)) by (apply filter_In; auto).
    destruct (List.filter p l); [destruct Hin|discriminate].
  - intros H. rewrite (filter_none p l H). reflexivity.
Qed.

Lemma location_rowcount (db : database) (id : Z) :
  Nat.eqb (length (List.filter (fun r => Z.eqb (loc_id r) id) (locations db))) 0 = true
  <-> ~ In id (map loc_id (locations db)).
Proof.
  rewrite rowcount_zero. split.
  - intros H Hin. apply in_map_iff in Hin as (l & <- & Hl).
    specialize (H l Hl). rewrite Z.eqb_refl in H. discriminate.
  - intros H l Hl. apply Z.eqb_neq. intros E. apply H. rewrite <- E. apply in_map, Hl.
Qed.

Lemma StronglySorted_filter_map {A : Type} (f : A -> Z) (p : A -> bool) (l : list A) :
  StronglySorted Z.lt (map f l) -> StronglySorted Z.lt (map f (List.filter p l)).
Proof.
  induction l as [|x l IH]; simpl; [auto|]. intros H.
  apply StronglySorted_inv in H as [Hl Hx]. destruct (p x); [|auto].
  simpl. constructor; [auto|]. rewrite List.Forall_forall in *.
  intros y Hy. apply Hx. apply in_map_iff in Hy as (z & <- & Hz).
  apply filter_In in Hz as [Hz _]. apply in_map, Hz.
Qed.

Lemma NoDup_filter_map {A B : Type} (f : A -> B) (p : A -> bool) (l : list A) :
  NoDup (map f l) -> NoDup (map f (List.filter p l)).
Proof.
  induction l as [|x l IH]; simpl; [auto|]. intros H.
  apply NoDup_cons in H as [Hx Hl]. destruct (p x); [|auto].
  simpl. apply NoDup_cons. split; [|auto].
  rewrite list_elem_of_In in *. intros Hin. apply Hx.
  apply in_map_iff in Hin as (z & E & Hz). apply filter_In in Hz as [Hz _].
  rewrite <- E. apply in_map, Hz.
Qed.

Lemma rows_of_location_kept (rows : list lc_row) (id lid : Z) :
  lid <> id ->
  List.filter (fun r => Z.eqb (lc_location_id r) lid)
    (List.filter (fun r => negb (Z.eqb (lc_location_id r) id)) rows)
  = List.filter (fun r => Z.eqb (lc_location_id r) lid) rows.
Proof.
  intros Hne. induction rows as [|r rows IH]; [reflexivity|]. simpl.
  destruct (Z.eqb_spec (lc_location_id r) id) as [E|E]; simpl.
  - destruct (Z.eqb_spec (lc_location_id r) lid); [congruence|exact IH].
  - destruct (Z.eqb (lc_location_id r) lid); [f_equal|]; exact IH.
Qed.

Lemma delete_location_schema (db db' : database) (id : Z) (r : string) :
  schema_holds db -> delete_location db id = Committed r db' -> schema_holds db'.
Proof.
  intros (Hord & Hcpk & Hpk & Hfk). unfold delete_location.
  destruct (Nat.eqb _ 0); [discriminate|]. intros [= _ <-]. repeat split.
  - unfold locations_ordered. cbn [locations]. apply StronglySorted_filter_map, Hord.
  - exact Hcpk.
  - unfold lc_primary_key. cbn [location_criteria]. apply NoDup_filter_map, Hpk.
  - apply lc_foreign_key_spec. cbn [location_criteria locations]. intros r0 Hr.
    apply filter_In in Hr as [Hr Hne].
    apply (proj1 (lc_foreign_key_spec db) Hfk) in Hr.
    apply in_map_iff in Hr as (l & El & Hl). apply in_map_iff. exists l.
    split; [exact El|]. apply filter_In. split; [exact Hl|]. rewrite El. exact Hne.
Qed.

(** [delete_location], for an id within the signed 64-bit range, answers 404
    when no location has the id.  Otherwise it commits: the location leaves
    the answer of [get_locations], the other locations keep their fields and
    their criteria, no stored value is left for the id, and the schema still
    holds. *)
Theorem delete_location_outcome (db : database) (id : Z) :
  sqlite_int id ->
  (~ In id (map loc_id (locations db)) ->
   delete_location db id = Aborted (HTTPException 404 "Location not found")) /\
  (In id (map loc_id (locations db)) ->
   exists db', delete_location db id = Committed "Location deleted" db' /\
     get_locations db'
     = List.filter (fun l => negb (Z.eqb (l_id l) id)) (get_locations db) /\
     rows_of_location db' id = [] /\
     get_criteria db' = get_criteria db /\
     (schema_holds db -> schema_holds db')).
Proof.
  intros _. split; intros Hid.
  - unfold delete_location. apply location_rowcount in Hid. rewrite Hid. reflexivity.
  - assert (Hrun : exists db', delete_location db id = Committed "Location deleted" db').
    { unfold delete_location.
      destruct (Nat.eqb _ 0) eqn:E; [apply location_rowcount in E; contradiction|].
      eexists. reflexivity. }
    destruct Hrun as [db' Hrun]. exists db'. split; [exact Hrun|].
    split; [|split; [|split]].
    + unfold delete_location in Hrun. destruct (Nat.eqb _ 0); [discriminate|].
      injection Hrun as <-. unfold get_locations. cbn [locations].
      rewrite List.filter_map_swap. cbn [l_id]. apply map_ext_in. intros l Hl.
      apply filter_In in Hl as [_ Hl]. apply negb_true_iff, Z.eqb_neq in Hl.
      unfold rows_of_location. cbn [location_criteria].
      rewrite (rows_of_location_kept _ id (loc_id l) Hl). reflexivity.
    + unfold delete_location in Hrun. destruct (Nat.eqb _ 0); [discriminate|].
      injection Hrun as <-.
      unfold rows_of_location. cbn [location_criteria]. apply filter_none.
      intros r Hr. apply filter_In in Hr as [_ Hr].
      apply negb_true_iff in Hr. exact Hr.
    + unfold delete_location in Hrun. destruct (Nat.eqb _ 0); [discriminate|].
      injection Hrun as <-. reflexivity.
    + intros Hschema. eapply delete_location_schema; [exact Hschema|exact Hrun].
Qed.

Lemma create_delete_restores (db db' : database) (location : LocationBase) (id : Z) :
  lc_foreign_key db = true ->
  create_location db location = Committed (id, location) db' ->
  delete_location db' id = Committed "Location deleted" db /\
  id = next_rowid (locations db).
Proof.
  intros Hfk. unfold create_location.
  destruct (insert_values _ _ _) as [rows|] eqn:Hins; [|discriminate].
  intros [= <- <-]. apply insert_values_rows in Hins. subst rows.
  unfold delete_location. cbn [locations location_criteria criteria].
  rewrite !List.filter_app. cbn [List.filter loc_id]. rewrite Z.eqb_refl. cbn [negb].
  rewrite (filter_none (fun r => Z.eqb (loc_id r) _) (locations db)).
  2:{ intros l Hl. apply Z.eqb_neq. apply next_rowid_above in Hl. lia. }
  cbn [app length Nat.eqb].
  rewrite (filter_all _ (locations db)).
  2:{ intros l Hl. apply negb_true_iff, Z.eqb_neq. apply next_rowid_above in Hl. lia. }
  rewrite (filter_all _ (location_criteria db)).
  2:{ intros r Hr. apply negb_true_iff, Z.eqb_neq. apply (next_rowid_unused db r Hfk Hr). }
  rewrite (filter_none _ (map _ _)).
  2:{ intros r Hr. apply in_map_iff in Hr as (kv & <- & _). simpl.
      rewrite Z.eqb_refl. reflexivity. }
  rewrite !app_nil_r. destruct db. split; reflexivity.
Qed.

(** Deleting the location that [create_location] has just created gives the
    database back as it was. *)
Theorem create_then_delete_location (db db' : database) (location : LocationBase) (id : Z) :
  schema_holds db ->
  create_location db location = Committed (id, location) db' ->
  delete_location db' id = Committed "Location deleted" db.
Proof.
  intros (_ & _ & _ & Hfk) Hrun. apply (create_delete_restores db db' location id Hfk Hrun).
Qed.

(** Ids are reused: after the location with the largest id is deleted, the
    next location that is created gets the same id. *)
Theorem location_id_reused (db db1 db2 : database) (first second : LocationBase)
    (id : Z) (r : string) :
  schema_holds db ->
  create_location db first = Committed (id, first) db1 ->
  delete_location db1 id = Committed r db2 ->
  distinct_keys (lb_criteria second) ->
  exists db3, create_location db2 second = Committed (id, second) db3.
Proof.
  intros (_ & _ & _ & Hfk) Hcreate Hdelete Hkeys.
  destruct (create_delete_restores db db1 first id Hfk Hcreate) as [Hback Hid].
  rewrite Hback in Hdelete. injection Hdelete as _ <-.
  eexists. rewrite Hid. apply create_location_runs; assumption.
Qed.

Lemma update_location_ids (id : Z) (location : LocationBase) (rows : list location_row) :
  map loc_id
    (map (fun r => if Z.eqb (loc_id r) id
                   then {| loc_id := loc_id r;
                           loc_name := lb_name location;
                           loc_address := lb_address location;
                           loc_latitude := lb_latitude location;
                           loc_longitude := lb_longitude location |}
                   else r) rows)
  = map loc_id rows.
Proof.
  rewrite map_map. apply map_ext. intros r. destruct (Z.eqb (loc_id r) id); reflexivity.
Qed.

Lemma update_location_schema (db db' : database) (id : Z) (location : LocationBase)
    (r : Z * LocationBase) :
  schema_holds db -> update_location db id location = Committed r db' -> schema_holds db'.
Proof.
  intros (Hord & Hcpk & Hpk & Hfk). unfold update_location.
  destruct (Nat.eqb _ 0) eqn:E; [discriminate|].
  assert (Hid : In id (map loc_id (locations db))).
  { destruct (in_dec Z.eq_dec id (map loc_id (locations db))) as [H|H]; [exact H|].
    apply location_rowcount in H. congruence. }
  destruct (insert_values _ _ _) as [rows|] eqn:Hins; [|discriminate].
  intros [= _ <-]. repeat split.
  - unfold locations_ordered. cbn [locations]. rewrite update_location_ids. exact Hord.
  - exact Hcpk.
  - unfold lc_primary_key. cbn [location_criteria].
    eapply insert_values_key; [|exact Hins]. apply NoDup_filter_map, Hpk.
  - apply insert_values_rows in Hins. subst rows.
    apply lc_foreign_key_spec. cbn [location_criteria locations].
    rewrite update_location_ids.
    intros r0 Hr. apply in_app_iff in Hr as [Hr|Hr].
    + apply filter_In in Hr as [Hr _].
      apply (proj1 (lc_foreign_key_spec db) Hfk), Hr.
    + apply in_map_iff in Hr as (kv & <- & _). exact Hid.
Qed.

(** [update_location], for an id within the signed 64-bit range, answers
    404 when no location has the id.  Otherwise, with a body whose criteria
    keys are distinct, it commits: in the answer of [get_locations] the
    location takes the fields and the criteria of the body in place of its
    former ones, the other locations are unchanged, and the schema still
    holds. *)
Theorem update_location_outcome (db : database) (id : Z) (location : LocationBase) :
  sqlite_int id ->
  (~ In id (map loc_id (locations db)) ->
   update_location db id location = Aborted (HTTPException 404 "Location not found")) /\
  (In id (map loc_id (locations db)) -> distinct_keys (lb_criteria location) ->
   exists db', update_location db id location = Committed (id, location) db' /\
     get_locations db'
     = map (fun l => if Z.eqb (l_id l) id then location_of id location else l)
         (get_locations db) /\
     get_criteria db' = get_criteria db /\
     (schema_holds db -> schema_holds db')).
Proof.
  intros _. split.
  - intros Hid. unfold update_location.
    apply location_rowcount in Hid. rewrite Hid. reflexivity.
  - intros Hid Hkeys.
    set (kept := List.filter (fun r => negb (Z.eqb (lc_location_id r) id))
                   (location_criteria db)).
    assert (Hkept : forall r, In r kept -> lc_location_id r <> id).
    { intros r Hr. apply filter_In in Hr as [_ Hr].
      apply negb_true_iff, Z.eqb_neq in Hr. exact Hr. }
    assert (Hins : insert_values id (lb_criteria location) kept
                   = Some (kept ++ map (value_row id) (lb_criteria location))%list).
    { apply insert_values_succeeds; [exact Hkeys|].
      intros kv _ Hin. apply in_map_iff in Hin as (r & Ek & Hr).
      apply (Hkept r Hr). unfold lc_key in Ek. injection Ek as Ek _. exact Ek. }
    assert (Hrun : exists db', update_location db id location = Committed (id, location) db' /\
              criteria db' = criteria db).
    { unfold update_location.
      destruct (Nat.eqb _ 0) eqn:E; [apply location_rowcount in E; contradiction|].
      fold kept. rewrite Hins. eexists. split; reflexivity. }
    destruct Hrun as (db' & Hrun & Hcrit).
    exists db'. split; [exact Hrun|]. split; [|split].
    + unfold update_location in Hrun.
      destruct (Nat.eqb _ 0); [discriminate|]. fold kept in Hrun. rewrite Hins in Hrun.
      injection Hrun as <-.
      unfold get_locations. cbn [locations]. rewrite !map_map.
      apply map_ext. intros l. cbn [l_id].
      unfold rows_of_location. cbn [location_criteria]. rewrite List.filter_app.
      destruct (Z.eqb_spec (loc_id l) id) as [El|El]; cbn [loc_id].
      * rewrite El. unfold location_of. f_equal.
        rewrite filter_none, filter_all.
        -- apply dict_of_value_rows.
        -- intros r Hr. apply in_map_iff in Hr as (kv & <- & _). simpl. apply Z.eqb_refl.
        -- intros r Hr. apply Z.eqb_neq, Hkept, Hr.
      * rewrite (filter_none _ (map _ _)).
        -- rewrite app_nil_r. unfold kept.
           rewrite (rows_of_location_kept _ id (loc_id l) El). reflexivity.
        -- intros r Hr. apply in_map_iff in Hr as (kv & <- & _). simpl.
           apply Z.eqb_neq. congruence.
    + exact Hcrit.
    + intros Hschema. eapply update_location_schema; [exact Hschema|exact Hrun].
Qed.

(** ** Criteria *)

Lemma criteria_rowcount (db : database) (id : string) :
  Nat.eqb (length (List.filter (fun r => String.eqb (crit_id r) id) (criteria db))) 0 = true
  <-> ~ In id (map crit_id (criteria db)).
Proof.
  rewrite rowcount_zero. split.
  - intros H Hin. apply in_map_iff in Hin as (c & <- & Hc).
    specialize (H c Hc). rewrite String.eqb_refl in H. discriminate.
  - intros H c Hc. apply String.eqb_neq. intros E. apply H. rewrite <- E. apply in_map, Hc.
Qed.

Lemma criteria_id_used (db : database) (id : string) :
  existsb (fun r => String.eqb (crit_id r) id) (criteria db) = true
  <-> In id (map crit_id (criteria db)).
Proof.
  rewrite existsb_exists. split.
  - intros (c & Hc & E). apply String.eqb_eq in E. rewrite <- E. apply in_map, Hc.
  - intros H. apply in_map_iff in H as (c & E & Hc). exists c. split; [exact Hc|].
    apply String.eqb_eq, E.
Qed.

Lemma NoDup_map_reflect {A B C : Type} (f : A -> B) (g : A -> C) (l : list A) :
  (forall x y, In x l -> In y l -> g x = g y -> f x = f y) ->
  NoDup (map f l) -> NoDup (map g l).
Proof.
  induction l as [|x l IH]; intros H Hnd; simpl; [constructor|].
  simpl in Hnd. apply NoDup_cons in Hnd as [Hx Hnd]. apply NoDup_cons. split.
  - intros Hin. apply Hx. apply list_elem_of_In. apply list_elem_of_In in Hin.
    apply in_map_iff in Hin as (y & E & Hy). apply in_map_iff. exists y.
    split; [|exact Hy]. symmetry. apply H; [left; reflexivity|right; exact Hy|].
    symmetry. exact E.
  - apply IH; [|exact Hnd]. intros y z Hy Hz. apply H; right; assumption.
Qed.

Lemma rename_conflict_false (rows : list lc_row) (old new : string) (r r' : lc_row) :
  rename_conflict rows old new = false ->
  In r rows -> In r' rows ->
  lc_criteria_id r = old -> lc_criteria_id r' = new ->
  lc_location_id r <> lc_location_id r'.
Proof.
  intros Hc Hr Hr' Eold Enew Elid.
  assert (Ht : rename_conflict rows old new = true); [|congruence].
  unfold rename_conflict. apply existsb_exists. exists r. split; [exact Hr|].
  apply andb_true_iff. split; [apply String.eqb_eq, Eold|].
  apply lc_has_key_spec. rewrite Elid, <- Enew. apply (in_map lc_key), Hr'.
Qed.

Lemma create_criteria_schema (db db' : database) (c r : criterion_row) :
  schema_holds db -> create_criteria db c = Committed r db' -> schema_holds db'.
Proof.
  intros (Hord & Hcpk & Hpk & Hfk). unfold create_criteria.
  destruct (existsb _ _) eqn:E; [discriminate|]. intros [= _ <-]. repeat split.
  - exact Hord.
  - unfold criteria_primary_key. cbn [criteria]. rewrite map_app.
    apply NoDup_app. split; [exact Hcpk|]. split; [|apply NoDup_singleton].
    intros k Hk Hk'. rewrite list_elem_of_In in Hk, Hk'. destruct Hk' as [<-|[]].
    apply criteria_id_used in Hk. congruence.
  - exact Hpk.
  - exact Hfk.
Qed.

Lemma delete_criteria_schema (db db' : database) (id r : string) :
  schema_holds db -> delete_criteria db id = Committed r db' -> schema_holds db'.
Proof.
  intros (Hord & Hcpk & Hpk & Hfk). unfold delete_criteria.
  destruct (Nat.eqb _ 0); [discriminate|]. intros [= _ <-]. repeat split.
  - exact Hord.
  - unfold criteria_primary_key. cbn [criteria]. apply NoDup_filter_map, Hcpk.
  - unfold lc_primary_key. cbn [location_criteria]. apply NoDup_filter_map, Hpk.
  - apply lc_foreign_key_spec. cbn [location_criteria locations]. intros r0 Hr.
    apply filter_In in Hr as [Hr _]. apply (proj1 (lc_foreign_key_spec db) Hfk), Hr.
Qed.

Lemma update_criteria_schema (db db' : database) (id : string) (c r : criterion_row) :
  schema_holds db -> update_criteria db id c = Committed r db' -> schema_holds db'.
Proof.
  intros (Hord & Hcpk & Hpk & Hfk). unfold update_criteria.
  destruct (Nat.eqb _ 0); [discriminate|].
  destruct (negb (String.eqb id (crit_id c)) && existsb _ _) eqn:Econf; [discriminate|].
  assert (Hcrit : NoDup (map crit_id
            (map (fun r0 => if String.eqb (crit_id r0) id then c else r0) (criteria db)))).
  { rewrite map_map. apply (NoDup_map_reflect crit_id); [|exact Hcpk].
    intros x y Hx Hy.
    destruct (String.eqb_spec (crit_id x) id) as [Ex|Ex],
             (String.eqb_spec (crit_id y) id) as [Ey|Ey]; try congruence.
    - intros E. apply andb_false_iff in Econf as [Econf|Econf].
      + apply negb_false_iff, String.eqb_eq in Econf. congruence.
      + exfalso. assert (Hin : existsb (fun r0 => String.eqb (crit_id r0) (crit_id c))
                                 (criteria db) = true); [|congruence].
        apply existsb_exists. exists y. split; [exact Hy|]. apply String.eqb_eq. congruence.
    - intros E. apply andb_false_iff in Econf as [Econf|Econf].
      + apply negb_false_iff, String.eqb_eq in Econf. congruence.
      + exfalso. assert (Hin : existsb (fun r0 => String.eqb (crit_id r0) (crit_id c))
                                 (criteria db) = true); [|congruence].
        apply existsb_exists. exists x. split; [exact Hx|]. apply String.eqb_eq. congruence. }
  destruct (String.eqb id (crit_id c)) eqn:Eid.
  - intros [= _ <-]. repeat split; assumption.
  - destruct (rename_conflict _ _ _) eqn:Er; [discriminate|].
    intros [= _ <-]. repeat split; try assumption.
    + unfold lc_primary_key, rename_rows. cbn [location_criteria]. rewrite map_map.
      apply (NoDup_map_reflect lc_key); [|exact Hpk].
      intros x y Hx Hy. unfold lc_key.
      destruct (String.eqb_spec (lc_criteria_id x) id) as [Ex|Ex],
               (String.eqb_spec (lc_criteria_id y) id) as [Ey|Ey]; cbn; intros E.
      * congruence.
      * injection E as El Ec. exfalso.
        apply (rename_conflict_false _ _ _ x y Er Hx Hy Ex); congruence.
      * injection E as El Ec. exfalso.
        apply (rename_conflict_false _ _ _ y x Er Hy Hx Ey); congruence.
      * exact E.
    + apply lc_foreign_key_spec. cbn [location_criteria locations]. intros r0 Hr.
      unfold rename_rows in Hr. apply in_map_iff in Hr as (x & E & Hx).
      apply (proj1 (lc_foreign_key_spec db) Hfk) in Hx.
      destruct (String.eqb (lc_criteria_id x) id); subst r0; exact Hx.
Qed.

(** [create_criteria] raises IntegrityError when the id is in use.  Otherwise
    it commits: the criterion is added after the others, the answer of
    [get_locations] is unchanged, and the schema still holds. *)
Theorem create_criteria_outcome (db : database) (c : criterion_row) :
  (In (crit_id c) (map crit_id (criteria db)) ->
   create_criteria db c = Aborted IntegrityError) /\
  (~ In (crit_id c) (map crit_id (criteria db)) ->
   exists db', create_criteria db c = Committed c db' /\
     get_criteria db' = (get_criteria db ++ [c])%list /\
     get_locations db' = get_locations db /\
     (schema_holds db -> schema_holds db')).
Proof.
  split; intros Hid.
  - unfold create_criteria. apply criteria_id_used in Hid. rewrite Hid. reflexivity.
  - assert (Hrun : exists db', create_criteria db c = Committed c db' /\
                     get_criteria db' = (get_criteria db ++ [c])%list /\
                     get_locations db' = get_locations db).
    { unfold create_criteria. destruct (existsb _ _) eqn:E.
      - apply criteria_id_used in E. contradiction.
      - eexists. repeat split. }
    destruct Hrun as (db' & Hrun & Hc & Hl). exists db'.
    split; [exact Hrun|]. split; [exact Hc|]. split; [exact Hl|].
    intros Hschema. eapply create_criteria_schema; [exact Hschema|exact Hrun].
Qed.

Lemma dict_of_rows_delete (cid : string) (rows : list lc_row) :
  dict_of_rows (List.filter (fun r => negb (String.eqb (lc_criteria_id r) cid)) rows)
  = delete cid (dict_of_rows rows).
Proof.
  unfold dict_of_rows.
  assert (H : forall d : gmap string Q,
             fold_left (fun d r => <[lc_criteria_id r := lc_value r]> d)
               (List.filter (fun r => negb (String.eqb (lc_criteria_id r) cid)) rows)
               (delete cid d)
             = delete cid (fold_left (fun d r => <[lc_criteria_id r := lc_value r]> d) rows d)).
  { induction rows as [|r rows IH]; intros d; [reflexivity|]. cbn [List.filter fold_left].
    destruct (String.eqb_spec (lc_criteria_id r) cid) as [E|E]; cbn [negb fold_left].
    - rewrite <- IH, E, delete_insert_eq. reflexivity.
    - rewrite <- IH, delete_insert_ne by congruence. reflexivity. }
  rewrite <- H, delete_empty. reflexivity.
Qed.

Lemma filter_swap {A : Type} (p q : A -> bool) (l : list A) :
  List.filter p (List.filter q l) = List.filter q (List.filter p l).
Proof.
  induction l as [|x l IH]; [reflexivity|]. simpl.
  destruct (q x) eqn:Eq, (p x) eqn:Ep; simpl; rewrite ?Eq, ?Ep, IH; reflexivity.
Qed.

(** [delete_criteria] answers 404 when no criterion has the id.  Otherwise it
    commits: the criterion leaves the answer of [get_criteria], every
    location loses the key in its criteria and keeps the rest, no value is
    stored under the id any more, and the schema still holds. *)
Theorem delete_criteria_outcome (db : database) (id : string) :
  (~ In id (map crit_id (criteria db)) ->
   delete_criteria db id = Aborted (HTTPException 404 "Criteria not found")) /\
  (In id (map crit_id (criteria db)) ->
   exists db', delete_criteria db id = Committed "Criteria deleted" db' /\
     get_criteria db'
     = List.filter (fun c => negb (String.eqb (crit_id c) id)) (get_criteria db) /\
     get_locations db' = map (without_criterion id) (get_locations db) /\
     criterion_values db' id = [] /\
     (schema_holds db -> schema_holds db')).
Proof.
  split; intros Hid.
  - unfold delete_criteria. apply criteria_rowcount in Hid. rewrite Hid. reflexivity.
  - assert (Hrun : exists db', delete_criteria db id = Committed "Criteria deleted" db' /\
              locations db' = locations db /\
              criteria db'
              = List.filter (fun c => negb (String.eqb (crit_id c) id)) (criteria db) /\
              location_criteria db'
              = List.filter (fun r => negb (String.eqb (lc_criteria_id r) id))
                  (location_criteria db)).
    { unfold delete_criteria.
      destruct (Nat.eqb _ 0) eqn:E; [apply criteria_rowcount in E; contradiction|].
      eexists. repeat split. }
    destruct Hrun as (db' & Hrun & Hl & Hc & Hr). exists db'.
    split; [exact Hrun|]. split; [exact Hc|]. split; [|split].
    + unfold get_locations. rewrite Hl, map_map. apply map_ext. intros l.
      unfold without_criterion. cbn. f_equal.
      unfold rows_of_location. rewrite Hr, filter_swap. apply dict_of_rows_delete.
    + unfold criterion_values. rewrite Hr. rewrite filter_none; [reflexivity|].
      intros r H. apply filter_In in H as [_ H]. apply negb_true_iff in H. exact H.
    + intros Hschema. eapply delete_criteria_schema; [exact Hschema|exact Hrun].
Qed.

(** *** Renaming a criterion *)

Lemma stored_value_cons (x : lc_row) (rows : list lc_row) (lid : Z) (cid : string) :
  stored_value (x :: rows) lid cid
  = if Z.eqb (lc_location_id x) lid && String.eqb (lc_criteria_id x) cid
    then Some (lc_value x) else stored_value rows lid cid.
Proof.
  unfold stored_value. cbn [List.filter].
  destruct (Z.eqb (lc_location_id x) lid && String.eqb (lc_criteria_id x) cid); reflexivity.
Qed.

Lemma stored_value_none (rows : list lc_row) (lid : Z) (cid : string) :
  (forall r, In r rows -> lc_location_id r = lid -> lc_criteria_id r <> cid) ->
  stored_value rows lid cid = None.
Proof.
  intros H. unfold stored_value. rewrite filter_none; [reflexivity|].
  intros r Hr. apply andb_false_iff.
  destruct (Z.eqb_spec (lc_location_id r) lid) as [E|E]; [right|left; reflexivity].
  apply String.eqb_neq. apply (H r Hr E).
Qed.

Lemma stored_value_renamed_old (rows : list lc_row) (old new : string) (lid : Z) :
  old <> new -> stored_value (rename_rows rows old new) lid old = None.
Proof.
  intros Hne. apply stored_value_none. intros r Hr _.
  unfold rename_rows in Hr. apply in_map_iff in Hr as (x & <- & _).
  destruct (String.eqb_spec (lc_criteria_id x) old); simpl; congruence.
Qed.

Lemma stored_value_renamed_other (rows : list lc_row) (old new k : string) (lid : Z) :
  k <> old -> k <> new ->
  stored_value (rename_rows rows old new) lid k = stored_value rows lid k.
Proof.
  intros Ho Hn. induction rows as [|x rows IH]; [reflexivity|].
  cbn [rename_rows map]. fold (rename_rows rows old new).
  rewrite !stored_value_cons, IH.
  destruct (String.eqb_spec (lc_criteria_id x) old) as [E|E]; [|reflexivity].
  cbn [lc_location_id lc_criteria_id lc_value].
  replace (String.eqb new k) with false by (symmetry; apply String.eqb_neq; congruence).
  replace (String.eqb (lc_criteria_id x) k) with false
    by (symmetry; apply String.eqb_neq; congruence).
  rewrite !andb_false_r. reflexivity.
Qed.

Lemma stored_value_renamed_new (rows : list lc_row) (old new : string) (lid : Z) :
  old <> new ->
  (forall r r', In r rows -> In r' rows ->
     lc_criteria_id r = old -> lc_criteria_id r' = new ->
     lc_location_id r <> lc_location_id r') ->
  stored_value (rename_rows rows old new) lid new
  = match stored_value rows lid old with
    | Some v => Some v
    | None => stored_value rows lid new
    end.
Proof.
  intros Hne. induction rows as [|x rows IH]; intros Hfree; [reflexivity|].
  assert (IH' := IH (fun r r' Hr Hr' => Hfree r r' (or_intror Hr) (or_intror Hr'))).
  cbn [rename_rows map]. fold (rename_rows rows old new).
  rewrite !stored_value_cons, IH'.
  destruct (String.eqb_spec (lc_criteria_id x) old) as [Eo|Eo];
    cbn [lc_location_id lc_criteria_id lc_value].
  - rewrite String.eqb_refl, andb_true_r.
    replace (String.eqb (lc_criteria_id x) new) with false
      by (symmetry; apply String.eqb_neq; congruence).
    rewrite andb_false_r. destruct (Z.eqb (lc_location_id x) lid); reflexivity.
  - destruct (Z.eqb_spec (lc_location_id x) lid) as [El|El]; cbn [andb]; [|reflexivity].
    destruct (String.eqb_spec (lc_criteria_id x) new) as [En|En]; [|reflexivity].
    rewrite (stored_value_none rows lid old); [reflexivity|].
    intros r Hr Elid Eold.
    apply (Hfree r x (or_intror Hr) (or_introl eq_refl) Eold En). congruence.
Qed.

Lemma update_criteria_effect (db db' : database) (id : string) (c r : criterion_row) :
  update_criteria db id c = Committed r db' ->
  r = c /\
  criteria db' = map (fun r0 => if String.eqb (crit_id r0) id then c else r0) (criteria db) /\
  locations db' = locations db /\
  (crit_id c <> id -> ~ In (crit_id c) (map crit_id (criteria db))) /\
  (forall lid k,
     fetch_value db' lid k =
     if String.eqb id (crit_id c) then fetch_value db lid k
     else if String.eqb k id then None
     else if String.eqb k (crit_id c) then
       match fetch_value db lid id with
       | Some v => Some v
       | None => fetch_value db lid (crit_id c)
       end
     else fetch_value db lid k).
Proof.
  intros Hrun. unfold update_criteria in Hrun.
  destruct (Nat.eqb _ 0); [discriminate|].
  destruct (negb (String.eqb id (crit_id c)) && existsb _ _) eqn:Econf; [discriminate|].
  assert (Hfresh : crit_id c <> id -> ~ In (crit_id c) (map crit_id (criteria db))).
  { intros Hne Hin. apply criteria_id_used in Hin.
    apply andb_false_iff in Econf as [Econf|Econf]; [|congruence].
    apply negb_false_iff, String.eqb_eq in Econf. congruence. }
  destruct (String.eqb_spec id (crit_id c)) as [Eid|Eid].
  - injection Hrun as <- <-. repeat split; try reflexivity. exact Hfresh.
  - destruct (rename_conflict _ _ _) eqn:Er; [discriminate|].
    injection Hrun as <- <-. split; [reflexivity|]. split; [reflexivity|].
    split; [reflexivity|]. split; [exact Hfresh|].
    intros lid k.
    change (fetch_value ?d lid ?k') with (stored_value (location_criteria d) lid k').
    cbn [location_criteria].
    destruct (String.eqb_spec k id) as [Ek|Ek].
    + subst k. apply stored_value_renamed_old. exact Eid.
    + destruct (String.eqb_spec k (crit_id c)) as [Ec|Ec].
      * subst k. apply stored_value_renamed_new; [exact Eid|].
        intros x y Hx Hy Ex Ey. apply (rename_conflict_false _ _ _ x y Er Hx Hy Ex Ey).
      * apply stored_value_renamed_other; assumption.
Qed.

(** [update_criteria] answers 404 when no criterion has the id, and raises
    IntegrityError when the new id differs and is in use.  When it commits,
    the criterion takes the place of the former one in the answer of
    [get_criteria]; if the id changes, the values stored under the former id
    are found under the new one, nothing is left under the former id, and the
    values of the other ids are unchanged; the schema still holds. *)
Theorem update_criteria_outcome (db : database) (id : string) (c : criterion_row) :
  (~ In id (map crit_id (criteria db)) ->
   update_criteria db id c = Aborted (HTTPException 404 "Criteria not found")) /\
  (In id (map crit_id (criteria db)) -> crit_id c <> id ->
   In (crit_id c) (map crit_id (criteria db)) ->
   update_criteria db id c = Aborted IntegrityError) /\
  (forall r db', update_criteria db id c = Committed r db' ->
     r = c /\
     get_criteria db'
     = map (fun r0 => if String.eqb (crit_id r0) id then c else r0) (get_criteria db) /\
     locations db' = locations db /\
     (forall lid k,
        fetch_value db' lid k =
        if String.eqb id (crit_id c) then fetch_value db lid k
        else if String.eqb k id then None
        else if String.eqb k (crit_id c) then
          match fetch_value db lid id with
          | Some v => Some v
          | None => fetch_value db lid (crit_id c)
          end
        else fetch_value db lid k) /\
     (schema_holds db -> schema_holds db')).
Proof.
  split; [|split].
  - intros Hid. unfold update_criteria.
    apply criteria_rowcount in Hid. rewrite Hid. reflexivity.
  - intros Hid Hne Hused. unfold update_criteria.
    destruct (Nat.eqb _ 0) eqn:E; [apply criteria_rowcount in E; contradiction|].
    apply criteria_id_used in Hused. rewrite Hused.
    replace (String.eqb id (crit_id c)) with false
      by (symmetry; apply String.eqb_neq; congruence).
    reflexivity.
  - intros r db' Hrun.
    destruct (update_criteria_effect db db' id c r Hrun) as (Hr & Hc & Hl & _ & Hv).
    split; [exact Hr|]. split; [exact Hc|]. split; [exact Hl|]. split; [exact Hv|].
    intros H. eapply update_criteria_schema; [exact H|exact Hrun].
Qed.

(** An update of a criterion that keeps its weight and its type, and that
    moves it to an id under which no value is stored yet when it changes the
    id, does not change what WP returns. *)
Theorem update_criteria_keeps_wp (libm_pow : Q -> Q -> Q) (db db' : database)
    (id : string) (c r : criterion_row) :
  update_criteria db id c = Committed r db' ->
  (forall r0, In r0 (criteria db) -> crit_id r0 = id ->
     crit_weight c = crit_weight r0 /\ crit_type c = crit_type r0) ->
  (crit_id c <> id -> criterion_values db (crit_id c) = []) ->
  calculate_wp libm_pow db' = calculate_wp libm_pow db.
Proof.
  intros Hrun Hsame Hempty.
  destruct (update_criteria_effect db db' id c r Hrun) as (_ & Hc & Hl & Hfresh & Hv).
  set (repl := fun r0 : criterion_row => if String.eqb (crit_id r0) id then c else r0) in *.
  assert (Hval : forall lid r0, In r0 (criteria db) ->
            value_of db' lid (crit_id (repl r0)) = value_of db lid (crit_id r0)).
  { intros lid r0 Hr0. unfold value_of. rewrite Hv. unfold repl.
    destruct (String.eqb_spec id (crit_id c)) as [Eid|Eid].
    - destruct (String.eqb_spec (crit_id r0) id) as [E0|E0]; [|reflexivity].
      rewrite <- Eid, E0. reflexivity.
    - assert (Hnone : fetch_value db lid (crit_id c) = None).
      { destruct (fetch_value db lid (crit_id c)) as [v|] eqn:E; [|reflexivity].
        apply fetch_value_stored in E. rewrite Hempty in E by congruence. destruct E. }
      destruct (String.eqb_spec (crit_id r0) id) as [E0|E0].
      + replace (String.eqb (crit_id c) id) with false
          by (symmetry; apply String.eqb_neq; congruence).
        rewrite String.eqb_refl, Hnone, E0.
        destruct (fetch_value db lid id); reflexivity.
      + replace (String.eqb (crit_id r0) id) with false
          by (symmetry; apply String.eqb_neq; congruence).
        replace (String.eqb (crit_id r0) (crit_id c)) with false; [reflexivity|].
        symmetry. apply String.eqb_neq. intros E. apply (Hfresh ltac:(congruence)).
        rewrite <- E. apply in_map, Hr0. }
  assert (Hexp : forall r0, In r0 (criteria db) -> wp_exponent (repl r0) = wp_exponent r0).
  { intros r0 Hr0. unfold repl.
    destruct (String.eqb_spec (crit_id r0) id) as [E0|E0]; [|reflexivity].
    destruct (Hsame r0 Hr0 E0) as [Hw Ht]. unfold wp_exponent. rewrite Hw, Ht. reflexivity. }
  assert (Hprod : forall loc crits s, (forall r0, In r0 crits -> In r0 (criteria db)) ->
            wp_product libm_pow db' loc (map repl crits) s
            = wp_product libm_pow db loc crits s).
  { intros loc crits. induction crits as [|r0 crits IH]; intros s Hsub; [reflexivity|].
    cbn [map wp_product].
    rewrite Hval, Hexp by (apply Hsub; left; reflexivity).
    destruct (Qeq_bool _ 0); [apply IH; intros; apply Hsub; right; assumption|].
    destruct (math_pow _ _ _); [|reflexivity]. cbn [mbind result_bind].
    apply IH. intros; apply Hsub; right; assumption. }
  assert (Hs : forall locs, wp_s_values libm_pow db' locs = wp_s_values libm_pow db locs).
  { induction locs as [|loc locs IH]; [reflexivity|]. cbn [wp_s_values].
    rewrite Hc, Hprod, IH by auto. reflexivity. }
  unfold calculate_wp, wp_unsorted. rewrite Hl, Hs, Hc.
  destruct (locations db); [reflexivity|].
  destruct (criteria db); reflexivity.
Qed.

(** ** Sequences of requests *)

(** Every database that the endpoints produce from the empty one satisfies
    the schema: the locations are in the order of their ids, the ids of the
    criteria and the keys of the stored values are distinct, and every stored
    value belongs to a location. *)
Theorem reachable_schema (db : database) : reachable db -> schema_holds db.
Proof.
  induction 1 as [|db db' location r _ IH Hrun|db db' id location r _ IH Hrun
                  |db db' id r _ IH Hrun|db db' c r _ IH Hrun
                  |db db' id c r _ IH Hrun|db db' id r _ IH Hrun].
  - repeat split; try constructor.
  - eapply create_location_schema; eassumption.
  - eapply update_location_schema; eassumption.
  - eapply delete_location_schema; eassumption.
  - eapply create_criteria_schema; eassumption.
  - eapply update_criteria_schema; eassumption.
  - eapply delete_criteria_schema; eassumption.
Qed.

Lemma dict_of_rows_lookup (rows : list lc_row) (lid : Z) (k : string) (d : gmap string Q) :
  NoDup (map lc_key rows) ->
  fold_left (fun d r => <[lc_criteria_id r := lc_value r]> d)
    (List.filter (fun r => Z.eqb (lc_location_id r) lid) rows) d !! k
  = match stored_value rows lid k with
    | Some v => Some v
    | None => d !! k
    end.
Proof.
  revert d. induction rows as [|x rows IH]; intros d Hnd; [reflexivity|].
  cbn [map] in Hnd. apply NoDup_cons in Hnd as [Hx Hnd].
  rewrite stored_value_cons. cbn [List.filter].
  destruct (Z.eqb_spec (lc_location_id x) lid) as [El|El]; cbn [andb fold_left].
  - rewrite (IH _ Hnd).
    destruct (String.eqb_spec (lc_criteria_id x) k) as [Ek|Ek].
    + rewrite (stored_value_none rows lid k).
      * rewrite Ek. apply lookup_insert_eq.
      * intros r Hr Erl Erk. apply Hx. apply list_elem_of_In.
        apply in_map_iff. exists r. split; [|exact Hr]. unfold lc_key. congruence.
    + rewrite lookup_insert_ne by exact Ek. reflexivity.
  - apply (IH _ Hnd).
Qed.

(** Under the primary key of [location_criteria], the criteria that
    [get_locations] shows for a location are the values that the analysis
    fetches for it: key by key, the dict and [fetch_value] agree. *)
Theorem get_locations_fetch_value (db : database) (l : Location) (k : string) :
  lc_primary_key db -> In l (get_locations db) ->
  l_criteria l !! k = fetch_value db (l_id l) k.
Proof.
  intros Hpk Hl. unfold get_locations in Hl. apply in_map_iff in Hl as (loc & <- & _).
  cbn [l_criteria l_id]. unfold dict_of_rows, rows_of_location.
  rewrite (dict_of_rows_lookup _ _ _ _ Hpk), lookup_empty.
  change (stored_value (location_criteria db) (loc_id loc) k)
    with (fetch_value db (loc_id loc) k).
  destruct (fetch_value db (loc_id loc) k); reflexivity.
Qed.

(** A location that has been deleted cannot be deleted again: the second
    request answers 404. *)
Theorem delete_location_twice (db db' : database) (id : Z) (r : string) :
  delete_location db id = Committed r db' ->
  delete_location db' id = Aborted (HTTPException 404 "Location not found").
Proof.
  unfold delete_location at 1. destruct (Nat.eqb _ 0); [discriminate|].
  intros [= _ <-]. unfold delete_location. cbn [locations].
  rewrite (proj2 (rowcount_zero _ _)); [reflexivity|].
  intros x Hx. apply filter_In in Hx as [_ Hx]. apply negb_true_iff in Hx. exact Hx.
Qed.

(** * More on the analysis endpoints *)

(** ** When SAW fails *)

Lemma some_criterion_has_values_false (db : database) :
  some_criterion_has_values db = false <->
  forall c, In c (criteria db) -> criterion_values db (crit_id c) = [].
Proof.
  unfold some_criterion_has_values. split.
  - intros H c Hc. destruct (criterion_values db (crit_id c)) as [|v vs] eqn:E; [reflexivity|].
    assert (Ht : existsb (fun c => match criterion_values db (crit_id c) with
                                   | [] => false | _ :: _ => true end) (criteria db) = true).
    { apply existsb_exists. exists c. rewrite E. auto. }
    congruence.
  - intros H. destruct (existsb _ _) eqn:E; [|reflexivity].
    apply existsb_exists in E as (c & Hc & E). rewrite (H c Hc) in E. discriminate.
Qed.

Lemma saw_criteria_skipped (db : database) (crits : list criterion_row)
    (nm : gmap Z (gmap string Q)) :
  (forall c, In c crits -> criterion_values db (crit_id c) = []) ->
  saw_criteria db crits nm = Ok nm.
Proof.
  induction crits as [|c crits IH]; intros H; [reflexivity|].
  cbn [saw_criteria].
  rewrite (proj2 (saw_bounds_none db (crit_id c)) (H c (or_introl eq_refl))).
  cbn [mbind result_bind]. apply IH. intros c' Hc'. apply H. right. exact Hc'.
Qed.

Lemma saw_sum_raises (nm : gmap Z (gmap string Q)) (lid : Z) (crits : list criterion_row)
    (acc : Q) (e : py_exn) :
  saw_sum nm lid crits acc = Raise e -> e = KeyError.
Proof.
  revert acc. induction crits as [|c crits IH]; intros acc; cbn [saw_sum]; [discriminate|].
  destruct (nm !! lid); [apply IH|]. intros [= <-]. reflexivity.
Qed.

Lemma saw_results_raises (db : database) (nm : gmap Z (gmap string Q))
    (locs : list location_row) (e : py_exn) :
  saw_results db nm locs = Raise e -> e = KeyError.
Proof.
  induction locs as [|loc locs IH]; cbn [saw_results]; [discriminate|].
  destruct (saw_sum nm (loc_id loc) (criteria db) 0) as [q|e'] eqn:Es.
  - cbn [mbind result_bind]. destruct (nm !! loc_id loc); [|intros [= <-]; reflexivity].
    destruct (saw_results db nm locs) as [rs|e']; [discriminate|].
    cbn [mbind result_bind]. intros [= <-]. apply IH. reflexivity.
  - cbn [mbind result_bind]. intros [= <-]. eapply saw_sum_raises, Es.
Qed.

(** SAW raises KeyError exactly when there are locations and criteria and no
    value is stored for any criterion; it raises no other exception. *)
Theorem saw_key_error (db : database) :
  (calculate_saw db = Raise KeyError <->
   locations db <> [] /\ criteria db <> [] /\ some_criterion_has_values db = false) /\
  (forall e, calculate_saw db = Raise e -> e = KeyError).
Proof.
  split; [split|].
  - intros Hrun.
    destruct (locations db) as [|l ls] eqn:El;
      [unfold calculate_saw in Hrun; rewrite El in Hrun; discriminate|].
    destruct (criteria db) as [|c cs] eqn:Ec;
      [unfold calculate_saw in Hrun; rewrite El, Ec in Hrun; discriminate|].
    split; [discriminate|]. split; [discriminate|].
    destruct (some_criterion_has_values db) eqn:E; [|reflexivity].
    destruct (calculate_saw_total db E) as [rs Hrs]. congruence.
  - intros (Hl & Hc & Hv). unfold calculate_saw, saw_unsorted, saw_matrix.
    rewrite saw_criteria_skipped by (apply some_criterion_has_values_false, Hv).
    cbn [mbind result_bind].
    destruct (locations db) as [|l ls]; [congruence|].
    destruct (criteria db) as [|c cs] eqn:Ec; [congruence|].
    cbn [saw_results]. rewrite Ec. cbn [saw_sum]. rewrite lookup_empty. reflexivity.
  - intros e. unfold calculate_saw, saw_unsorted, saw_matrix.
    destruct (saw_criteria_total db (criteria db) ∅) as [nm ->]. cbn [mbind result_bind].
    destruct (saw_results db nm (locations db)) as [rs|e'] eqn:Er.
    + destruct (locations db); [discriminate|]. destruct (criteria db); discriminate.
    + apply saw_results_raises in Er. subst e'.
      destruct (locations db); [discriminate|]. destruct (criteria db); [discriminate|].
      cbn [mbind result_bind]. intros [= <-]. reflexivity.
Qed.

(** ** WP when the total is not positive *)

Lemma sorted_desc_ties {A : Type} (key : A -> Q) (l : list A) :
  (forall x y, In x l -> In y l -> key x == key y) -> sorted_desc key l = l.
Proof.
  induction l as [|x l IH]; intros H; [reflexivity|].
  cbn [sorted_desc]. rewrite IH by (intros y z Hy Hz; apply H; right; assumption).
  destruct l as [|y l]; [reflexivity|]. cbn [insert_desc].
  replace (Qltb (key x) (key y)) with false; [reflexivity|].
  symmetry. apply Qltb_ge.
  rewrite (H x y (or_introl eq_refl) (or_intror (or_introl eq_refl))). apply Qle_refl.
Qed.

(** When the raw scores of WP add up to 0 or less, every location gets the
    score 0 and the result keeps the order of the locations. *)
Theorem wp_nonpositive_total (libm_pow : Q -> Q -> Q) (db : database)
    (items : list wp_item) :
  wp_s_values libm_pow db (locations db) = Ok items ->
  locations db <> [] -> criteria db <> [] ->
  sum_s items <= 0 ->
  calculate_wp libm_pow db
  = Ok (map (fun item => {| wp_location := item_location item;
                            wp_score := 0;
                            wp_s := item_s item |}) items).
Proof.
  intros Hit Hl Hc Hsum. unfold calculate_wp, wp_unsorted.
  rewrite Hit. cbn [mbind result_bind]. rewrite wp_results_spec. cbn [mbind result_bind].
  destruct (locations db); [congruence|]. destruct (criteria db); [congruence|].
  f_equal.
  assert (E : map (wp_record_spec (sum_s items)) items
              = map (fun item => {| wp_location := item_location item;
                                    wp_score := 0;
                                    wp_s := item_s item |}) items).
  { apply map_ext. intros item. unfold wp_record_spec.
    apply Qltb_ge in Hsum. rewrite Hsum. reflexivity. }
  rewrite E. apply sorted_desc_ties.
  intros x y Hx Hy. apply in_map_iff in Hx as (ix & <- & _).
  apply in_map_iff in Hy as (iy & <- & _). reflexivity.
Qed.

(** ** The range of the normalised values and of the scores of SAW *)

Lemma value_of_stored (db : database) (lid : Z) (cid : string) :
  value_of db lid cid = 0 \/
  exists r, In r (location_criteria db) /\ lc_criteria_id r = cid /\
            lc_value r = value_of db lid cid.
Proof.
  unfold value_of. destruct (fetch_value db lid cid) as [v|] eqn:E; [right|left; reflexivity].
  apply fetch_value_stored in E. unfold criterion_values in E.
  apply in_map_iff in E as (r & Ev & Hr). apply filter_In in Hr as [Hr Hc].
  exists r. split; [exact Hr|]. split; [apply String.eqb_eq, Hc|exact Ev].
Qed.

Lemma value_of_ge_min (db : database) (lid : Z) (cid : string) (M m : Q) :
  saw_bounds db cid = Ok (Some (M, m)) -> 0 < value_of db lid cid ->
  m <= value_of db lid cid.
Proof.
  intros Hb Hpos. apply saw_bounds_some in Hb as [_ Hmin].
  apply py_min_spec in Hmin as [_ Hlb].
  destruct (value_of_stored db lid cid) as [E|(r & Hr & Hc & Ev)]; [rewrite E in Hpos; lra|].
  rewrite <- Ev. apply Hlb. unfold criterion_values. apply in_map, filter_In.
  split; [exact Hr|]. apply String.eqb_eq, Hc.
Qed.

Lemma benefit_formula_range (v M : Q) :
  (0 < M -> v <= M) ->
  benefit_formula v M <= 1 /\ (0 <= v -> 0 <= benefit_formula v M).
Proof.
  intros Hle. unfold benefit_formula. destruct (Qltb 0 M) eqn:E; qbool.
  - specialize (Hle E). split.
    + apply Qle_shift_div_r; [exact E|lra].
    + intros H0. apply Qle_shift_div_l; [exact E|lra].
  - split; [lra|intros _; lra].
Qed.

Lemma cost_formula_range (v m : Q) :
  (0 < v -> m <= v) -> 0 <= cost_formula v m <= 1.
Proof.
  intros Hle. unfold cost_formula.
  destruct (Qltb 0 m) eqn:Em; cbn [andb]; [|split; lra].
  destruct (Qltb 0 v) eqn:Ev; [|split; lra]. qbool. specialize (Hle Ev). split.
  - apply Qle_shift_div_l; [exact Ev|lra].
  - apply Qle_shift_div_r; [exact Ev|lra].
Qed.

(** For a criterion that SAW treats as a cost (any type but "benefit") and
    that has stored values, the normalised value of every location is between
    0 and 1; it is 1 for a location whose value is the minimum when that
    minimum is positive, and 0 for a location whose value is 0 or less. *)
Theorem saw_cost_range (db : database) (l : location_row) (c : criterion_row)
    (max_c min_c : Q) :
  criteria_primary_key db -> In l (locations db) -> In c (criteria db) ->
  crit_type c <> "benefit" ->
  saw_bounds db (crit_id c) = Ok (Some (max_c, min_c)) ->
  exists n, saw_entry db (loc_id l) (crit_id c) = Ok (Some n) /\
    0 <= n <= 1 /\
    (value_of db (loc_id l) (crit_id c) == min_c -> 0 < min_c -> n == 1) /\
    (value_of db (loc_id l) (crit_id c) <= 0 -> n == 0).
Proof.
  intros Hpk Hl Hc Ht Hb. unfold saw_entry.
  destruct (saw_criteria_total db (criteria db) ∅) as [nm Hnm].
  pose proof (saw_matrix_entry db nm l c max_c min_c Hnm Hpk Hl Hc Hb) as He.
  unfold saw_matrix. rewrite Hnm. cbn [mbind result_bind].
  unfold written in He. apply String.eqb_neq in Ht. rewrite Ht in He.
  exists (cost_formula (value_of db (loc_id l) (crit_id c)) min_c).
  split; [rewrite He; reflexivity|]. split; [|split].
  - apply cost_formula_range. intros Hpos. eapply value_of_ge_min; eassumption.
  - intros Ev Hpos. unfold cost_formula.
    assert (Hv : 0 < value_of db (loc_id l) (crit_id c)) by (rewrite Ev; exact Hpos).
    apply Qltb_lt in Hpos, Hv. rewrite Hpos, Hv. cbn [andb].
    apply Qltb_lt in Hpos. rewrite Ev. field. lra.
  - intros Hv. unfold cost_formula. apply Qltb_ge in Hv. rewrite Hv, andb_false_r.
    reflexivity.
Qed.

Lemma round_half_even_mono (x y : Q) :
  x <= y -> (round_half_even x <= round_half_even y)%Z.
Proof.
  intros Hxy. pose proof (Qfloor_resp_le x y Hxy) as Hf.
  pose proof (Qfloor_le x) as Hx1. pose proof (Qlt_floor x) as Hx2.
  pose proof (Qfloor_le y) as Hy1. pose proof (Qlt_floor y) as Hy2.
  assert (Hrx : (Qfloor x <= round_half_even x <= Qfloor x + 1)%Z).
  { unfold round_half_even.
    repeat match goal with |- context [if ?b then _ else _] => destruct b end; lia. }
  assert (Hry : (Qfloor y <= round_half_even y <= Qfloor y + 1)%Z).
  { unfold round_half_even.
    repeat match goal with |- context [if ?b then _ else _] => destruct b end; lia. }
  destruct (Z.eq_dec (Qfloor x) (Qfloor y)) as [E|E]; [|lia].
  unfold round_half_even. rewrite E.
  destruct (Qltb (x - inject_Z (Qfloor y)) (1 # 2)) eqn:X1;
    destruct (Qltb (1 # 2) (x - inject_Z (Qfloor y))) eqn:X2;
    destruct (Qltb (y - inject_Z (Qfloor y)) (1 # 2)) eqn:Y1;
    destruct (Qltb (1 # 2) (y - inject_Z (Qfloor y))) eqn:Y2;
    destruct (Z.even (Qfloor y)); qbool; try lia; exfalso; lra.
Qed.

Lemma round4_mono (x y : Q) : x <= y -> round4 x <= round4 y.
Proof.
  intros Hxy. unfold round4, Qle. cbn [Qnum Qden].
  apply Z.mul_le_mono_nonneg_r; [lia|].
  apply round_half_even_mono. lra.
Qed.

Lemma weighted_sum_range (nm : gmap Z (gmap string Q)) (lid : Z)
    (crits : list criterion_row) :
  (forall c, In c crits -> 0 <= crit_weight c /\ 0 <= n_of nm lid (crit_id c) <= 1) ->
  0 <= weighted_sum nm lid crits <= Qsum (map crit_weight crits).
Proof.
  induction crits as [|c crits IH]; intros H; cbn [weighted_sum fold_right map Qsum].
  - split; lra.
  - fold (weighted_sum nm lid crits). fold (Qsum (map crit_weight crits)).
    destruct (H c (or_introl eq_refl)) as (Hw & Hn0 & Hn1).
    destruct IH as [I0 I1]; [intros c' Hc'; apply H; right; exact Hc'|].
    assert (P0 : 0 <= crit_weight c * n_of nm lid (crit_id c))
      by (apply Qmult_le_0_compat; assumption).
    assert (P1 : crit_weight c * n_of nm lid (crit_id c) <= crit_weight c).
    { rewrite <- (Qmult_1_r (crit_weight c)) at 2.
      rewrite !(Qmult_comm (crit_weight c)). apply Qmult_le_compat_r; assumption. }
    split; lra.
Qed.

(** With weights and stored values that are not negative, every score that
    SAW reports lies between 0 and the rounded sum of the weights. *)
Theorem saw_score_range (db : database) (rs : list saw_record) (r : saw_record) :
  calculate_saw db = Ok rs ->
  criteria_primary_key db ->
  (forall c, In c (criteria db) -> 0 <= crit_weight c) ->
  (forall x, In x (location_criteria db) -> 0 <= lc_value x) ->
  In r rs ->
  0 <= saw_score r <= round4 (Qsum (map crit_weight (criteria db))).
Proof.
  intros Hrun Hpk Hw Hv Hr.
  assert (Hl : locations db <> []).
  { intros E. unfold calculate_saw in Hrun. rewrite E in Hrun.
    injection Hrun as <-. destruct Hr. }
  assert (Hc : criteria db <> []).
  { intros E. unfold calculate_saw in Hrun. rewrite E in Hrun.
    destruct (locations db); injection Hrun as <-; destruct Hr. }
  destruct (calculate_saw_inv db rs Hrun Hl Hc) as (nm & pre & Hnm & _ & -> & ->).
  apply (Permutation_in _ (sorted_desc_perm saw_score _)) in Hr.
  apply in_map_iff in Hr as (loc & <- & Hloc). cbn [saw_record_spec saw_score].
  assert (Hrange : 0 <= weighted_sum nm (loc_id loc) (criteria db)
                   <= Qsum (map crit_weight (criteria db))).
  { apply weighted_sum_range. intros c Hcin. split; [apply Hw, Hcin|].
    unfold n_of.
    destruct (saw_bounds_total db (crit_id c)) as ([[M m]|] & Hb).
    - rewrite (saw_matrix_entry db nm loc c M m Hnm Hpk Hloc Hcin Hb). cbn [default].
      assert (Hval : 0 <= value_of db (loc_id loc) (crit_id c)).
      { destruct (value_of_stored db (loc_id loc) (crit_id c)) as [E|(x & Hx & _ & <-)];
          [rewrite E; lra|apply Hv, Hx]. }
      unfold written. destruct (String.eqb (crit_type c) "benefit").
      + destruct (benefit_formula_range (value_of db (loc_id loc) (crit_id c)) M) as [H1 H0].
        * intros HM. eapply value_of_le_max; eassumption.
        * split; [apply H0, Hval|exact H1].
      + apply cost_formula_range. intros Hpos. eapply value_of_ge_min; eassumption.
    - rewrite (saw_matrix_entry_none db nm _ _ Hnm (proj1 (saw_bounds_none _ _) Hb)).
      cbn [default]. split; lra. }
  destruct Hrange as [H0 H1]. split.
  - apply (round4_mono 0) in H0.
    assert (E : round4 0 == 0) by reflexivity. rewrite E in H0. exact H0.
  - apply round4_mono, H1.
Qed.

(** ** What the analysis reads *)

(** Two databases with the same locations and criteria, and the same values
    stored under the ids of the criteria, have the same analysis. *)
Section SameReadings.
Variables db1 db2 : database.
Hypothesis same_locations : locations db1 = locations db2.
Hypothesis same_criteria : criteria db1 = criteria db2.
Hypothesis same_values : forall c, In c (criteria db2) ->
  criterion_values db1 (crit_id c) = criterion_values db2 (crit_id c).
Hypothesis same_fetch : forall c lid, In c (criteria db2) ->
  fetch_value db1 lid (crit_id c) = fetch_value db2 lid (crit_id c).

Lemma value_of_same (c : criterion_row) (lid : Z) :
  In c (criteria db2) -> value_of db1 lid (crit_id c) = value_of db2 lid (crit_id c).
Proof. intros Hc. unfold value_of. rewrite (same_fetch c lid Hc). reflexivity. Qed.

Lemma saw_locations_same (c : criterion_row) (M m : Q) (locs : list location_row)
    (nm : gmap Z (gmap string Q)) :
  In c (criteria db2) ->
  saw_locations db1 c M m locs nm = saw_locations db2 c M m locs nm.
Proof.
  intros Hc. revert nm. induction locs as [|loc locs IH]; intros nm; [reflexivity|].
  cbn [saw_locations]. rewrite (value_of_same c (loc_id loc) Hc).
  destruct (normalize _ _ _ _); [|reflexivity]. cbn [mbind result_bind].
  destruct (_ !! loc_id loc); [apply IH|reflexivity].
Qed.

Lemma saw_criteria_same (crits : list criterion_row) (nm : gmap Z (gmap string Q)) :
  (forall c, In c crits -> In c (criteria db2)) ->
  saw_criteria db1 crits nm = saw_criteria db2 crits nm.
Proof.
  revert nm. induction crits as [|c crits IH]; intros nm Hsub; [reflexivity|].
  assert (Hc : In c (criteria db2)) by (apply Hsub; left; reflexivity).
  assert (Hrest : forall c', In c' crits -> In c' (criteria db2))
    by (intros c' Hc'; apply Hsub; right; exact Hc').
  cbn [saw_criteria]. unfold saw_bounds. rewrite (same_values c Hc).
  fold (saw_bounds db2 (crit_id c)).
  destruct (saw_bounds db2 (crit_id c)) as [[[M m]|]|]; cbn [mbind result_bind].
  - rewrite same_locations, (saw_locations_same c M m _ nm Hc).
    destruct (saw_locations db2 c M m (locations db2) nm); [|reflexivity].
    cbn [mbind result_bind]. apply IH, Hrest.
  - apply IH, Hrest.
  - reflexivity.
Qed.

Lemma saw_results_same (nm : gmap Z (gmap string Q)) (locs : list location_row) :
  saw_results db1 nm locs = saw_results db2 nm locs.
Proof.
  induction locs as [|loc locs IH]; [reflexivity|].
  cbn [saw_results]. rewrite same_criteria, IH. reflexivity.
Qed.

Lemma calculate_saw_same : calculate_saw db1 = calculate_saw db2.
Proof.
  unfold calculate_saw, saw_unsorted, saw_matrix.
  rewrite same_locations, same_criteria.
  rewrite saw_criteria_same by auto.
  destruct (saw_criteria db2 (criteria db2) ∅); [|reflexivity]. cbn [mbind result_bind].
  rewrite saw_results_same. reflexivity.
Qed.

Lemma wp_product_same (libm_pow : Q -> Q -> Q) (loc : location_row)
    (crits : list criterion_row) (s : Q) :
  (forall c, In c crits -> In c (criteria db2)) ->
  wp_product libm_pow db1 loc crits s = wp_product libm_pow db2 loc crits s.
Proof.
  revert s. induction crits as [|c crits IH]; intros s Hsub; [reflexivity|].
  assert (Hrest : forall c', In c' crits -> In c' (criteria db2))
    by (intros c' Hc'; apply Hsub; right; exact Hc').
  cbn [wp_product]. rewrite (value_of_same c (loc_id loc)) by (apply Hsub; left; reflexivity).
  destruct (Qeq_bool _ 0); [apply IH, Hrest|].
  destruct (math_pow _ _ _); [|reflexivity]. cbn [mbind result_bind]. apply IH, Hrest.
Qed.

Lemma calculate_wp_same (libm_pow : Q -> Q -> Q) :
  calculate_wp libm_pow db1 = calculate_wp libm_pow db2.
Proof.
  assert (Hs : forall locs, wp_s_values libm_pow db1 locs = wp_s_values libm_pow db2 locs).
  { induction locs as [|loc locs IH]; [reflexivity|]. cbn [wp_s_values].
    rewrite same_criteria, wp_product_same, IH by auto. reflexivity. }
  unfold calculate_wp, wp_unsorted. rewrite same_locations, Hs, same_criteria. reflexivity.
Qed.
End SameReadings.

Lemma filter_filter_implied {A : Type} (p q : A -> bool) (l : list A) :
  (forall x, p x = true -> q x = true) ->
  List.filter p (List.filter q l) = List.filter p l.
Proof.
  intros H. induction l as [|x l IH]; [reflexivity|]. cbn [List.filter].
  destruct (q x) eqn:Eq.
  - cbn [List.filter]. rewrite IH. reflexivity.
  - rewrite IH. destruct (p x) eqn:Ep; [|reflexivity].
    rewrite (H x Ep) in Eq. discriminate.
Qed.

(** The values stored under ids that are not ids of criteria have no effect
    on the analysis: SAW and WP return the same with and without them. *)
Theorem unknown_criteria_ignored (libm_pow : Q -> Q -> Q) (db : database) :
  calculate_saw (known_values db) = calculate_saw db /\
  calculate_wp libm_pow (known_values db) = calculate_wp libm_pow db.
Proof.
  assert (Hknown : forall c r, In c (criteria db) ->
            String.eqb (lc_criteria_id r) (crit_id c) = true ->
            existsb (fun c0 => String.eqb (crit_id c0) (lc_criteria_id r)) (criteria db) = true).
  { intros c r Hc E. apply existsb_exists. exists c. split; [exact Hc|].
    apply String.eqb_eq in E. apply String.eqb_eq. congruence. }
  split; [apply calculate_saw_same|apply calculate_wp_same]; try reflexivity.
  - intros c Hc. unfold criterion_values, known_values. cbn [location_criteria].
    rewrite filter_filter_implied; [reflexivity|]. intros r. apply Hknown, Hc.
  - intros c lid Hc. unfold fetch_value, known_values. cbn [location_criteria].
    match goal with
    | |- match ?a with _ => _ end = match ?b with _ => _ end => assert (E : a = b)
    end; [|rewrite E; reflexivity].
    apply filter_filter_implied. intros r E.
    apply andb_true_iff in E as [_ E]. apply (Hknown c r Hc E).
  - intros c lid Hc. unfold fetch_value, known_values. cbn [location_criteria].
    match goal with
    | |- match ?a with _ => _ end = match ?b with _ => _ end => assert (E : a = b)
    end; [|rewrite E; reflexivity].
    apply filter_filter_implied. intros r E.
    apply andb_true_iff in E as [_ E]. apply (Hknown c r Hc E).
Qed.

(** ** More on the record endpoints *)

Lemma updated_rowcount (id : Z) (location : LocationBase) (rows : list location_row) :
  List.filter (fun r => Z.eqb (loc_id r) id)
    (map (fun r => if Z.eqb (loc_id r) id
                   then {| loc_id := loc_id r;
                           loc_name := lb_name location;
                           loc_address := lb_address location;
                           loc_latitude := lb_latitude location;
                           loc_longitude := lb_longitude location |}
                   else r) rows)
  = map (fun r => {| loc_id := loc_id r;
                     loc_name := lb_name location;
                     loc_address := lb_address location;
                     loc_latitude := lb_latitude location;
                     loc_longitude := lb_longitude location |})
      (List.filter (fun r => Z.eqb (loc_id r) id) rows).
Proof.
  induction rows as [|x rows IH]; [reflexivity|]. cbn [map List.filter].
  destruct (Z.eqb (loc_id x) id) eqn:E; cbn [loc_id List.filter map]; rewrite E, IH; reflexivity.
Qed.

(** Repeating an update of a location changes nothing: the second request
    commits the database that the first one committed. *)
Theorem update_location_twice (db db' : database) (id : Z) (location : LocationBase)
    (r : Z * LocationBase) :
  update_location db id location = Committed r db' ->
  update_location db' id location = Committed r db'.
Proof.
  unfold update_location at 1.
  destruct (Nat.eqb _ 0) eqn:Ecount; [discriminate|].
  destruct (insert_values _ _ _) as [rows|] eqn:Hins; [|discriminate].
  intros [= <- <-]. pose proof (insert_values_rows _ _ _ _ Hins) as Hrows.
  unfold update_location. cbn [locations location_criteria criteria].
  rewrite updated_rowcount, length_map, Ecount.
  assert (Hkept : List.filter (fun r => negb (Z.eqb (lc_location_id r) id)) rows
                  = List.filter (fun r => negb (Z.eqb (lc_location_id r) id))
                      (location_criteria db)).
  { rewrite Hrows, List.filter_app. rewrite (filter_none _ (map _ _)).
    - rewrite app_nil_r. apply filter_all. intros x Hx. apply filter_In in Hx as [_ Hx]. exact Hx.
    - intros x Hx. apply in_map_iff in Hx as (kv & <- & _). simpl.
      rewrite Z.eqb_refl. reflexivity. }
  rewrite Hkept, Hins. f_equal. f_equal.
  rewrite map_map. apply map_ext. intros x.
  destruct (Z.eqb (loc_id x) id) eqn:E; cbn [loc_id]; rewrite E; reflexivity.
Qed.

Lemma stored_value_is_some (rows : list lc_row) (lid : Z) (cid : string) :
  is_Some (stored_value rows lid cid) <-> lc_has_key rows lid cid = true.
Proof.
  induction rows as [|x rows IH].
  - split; [intros [v H]; discriminate|discriminate].
  - rewrite stored_value_cons. unfold lc_has_key in *. cbn [existsb].
    destruct (Z.eqb (lc_location_id x) lid && String.eqb (lc_criteria_id x) cid).
    + split; [reflexivity|eauto].
    + exact IH.
Qed.

Lemma rename_conflict_spec (rows : list lc_row) (old new : string) :
  rename_conflict rows old new = true <->
  exists lid, is_Some (stored_value rows lid old) /\ is_Some (stored_value rows lid new).
Proof.
  unfold rename_conflict. rewrite existsb_exists. split.
  - intros (x & Hx & E). apply andb_true_iff in E as [Eo En].
    apply String.eqb_eq in Eo. exists (lc_location_id x). split.
    + apply stored_value_is_some, lc_has_key_spec. rewrite <- Eo. apply (in_map lc_key), Hx.
    + apply stored_value_is_some, En.
  - intros (lid & Ho & Hn). apply stored_value_is_some, lc_has_key_spec in Ho.
    apply in_map_iff in Ho as (x & E & Hx). unfold lc_key in E. injection E as El Ec.
    exists x. split; [exact Hx|]. apply andb_true_iff.
    split; [apply String.eqb_eq, Ec|]. rewrite El. apply stored_value_is_some, Hn.
Qed.

(** [update_criteria] raises IntegrityError exactly when the criterion
    exists, the new id differs from the former one, and either the new id is
    the id of another criterion or some location has a value stored under
    both ids. *)
Theorem update_criteria_integrity_error (db : database) (id : string) (c : criterion_row) :
  update_criteria db id c = Aborted IntegrityError <->
  In id (map crit_id (criteria db)) /\ crit_id c <> id /\
  (In (crit_id c) (map crit_id (criteria db)) \/
   exists lid, is_Some (fetch_value db lid id) /\ is_Some (fetch_value db lid (crit_id c))).
Proof.
  unfold update_criteria.
  destruct (Nat.eqb _ 0) eqn:Ecount.
  - apply criteria_rowcount in Ecount. split; [discriminate|tauto].
  - assert (Hid : In id (map crit_id (criteria db))).
    { destruct (in_dec String.string_dec id (map crit_id (criteria db))) as [H|H]; [exact H|].
      apply criteria_rowcount in H. congruence. }
    destruct (String.eqb_spec id (crit_id c)) as [Eid|Eid]; cbn [negb andb].
    + split; [discriminate|]. intros (_ & Hne & _). congruence.
    + destruct (existsb _ _) eqn:Eused.
      * split; [intros _|reflexivity]. apply criteria_id_used in Eused.
        split; [exact Hid|]. split; [congruence|]. left. exact Eused.
      * destruct (rename_conflict _ _ _) eqn:Er.
        -- split; [intros _|reflexivity]. split; [exact Hid|]. split; [congruence|].
           right. apply rename_conflict_spec, Er.
        -- split; [discriminate|]. intros (_ & _ & [Hused|Hboth]).
           ++ apply criteria_id_used in Hused. congruence.
           ++ apply rename_conflict_spec in Hboth. congruence.
Qed.

(** * The properties at concrete requests *)

Ltac by_computation :=
  unfold schema_holds, locations_ordered, criteria_primary_key, lc_primary_key,
    distinct_keys;
  repeat split;
  first [ reflexivity | apply (bool_decide_unpack _); vm_compute; exact I ].

Lemma create_location_commits_witness :
  exists db', create_location Requests.with_shop Requests.kiosk
              = Committed (2%Z, Requests.kiosk) db' /\ schema_holds db'.
Proof.
  destruct (create_location_commits Requests.with_shop Requests.kiosk)
    as (db' & Hrun & _ & Hschema); [by_computation|by_computation|].
  exists db'. split; [exact Hrun|exact Hschema].
Defined.

Lemma create_location_get_locations_witness :
  get_locations Requests.with_kiosk
  = (get_locations Requests.with_shop ++ [location_of 2 Requests.kiosk])%list.
Proof.
  apply (create_location_get_locations Requests.with_shop Requests.with_kiosk
           Requests.kiosk 2); [by_computation|reflexivity].
Defined.

Lemma delete_location_outcome_witness :
  delete_location Requests.with_kiosk 5
  = Aborted (HTTPException 404 "Location not found") /\
  exists db', delete_location Requests.with_kiosk 2 = Committed "Location deleted" db' /\
    rows_of_location db' 2 = [].
Proof.
  destruct (delete_location_outcome Requests.with_kiosk 5) as [Hmissing _];
    [unfold sqlite_int; lia|].
  destruct (delete_location_outcome Requests.with_kiosk 2) as [_ Hfound];
    [unfold sqlite_int; lia|].
  split.
  - apply Hmissing. vm_compute. intros [H|[H|[]]]; discriminate.
  - destruct Hfound as (db' & Hrun & _ & Hrows & _); [vm_compute; auto|].
    exists db'. split; [exact Hrun|exact Hrows].
Defined.

Lemma create_then_delete_location_witness :
  delete_location Requests.with_kiosk 2 = Committed "Location deleted" Requests.with_shop.
Proof.
  apply (create_then_delete_location Requests.with_shop Requests.with_kiosk Requests.kiosk 2);
    [by_computation|reflexivity].
Defined.

Lemma location_id_reused_witness :
  exists db3, create_location Requests.with_shop Requests.bare
              = Committed (2%Z, Requests.bare) db3.
Proof.
  apply (location_id_reused Requests.with_shop Requests.with_kiosk Requests.with_shop
           Requests.kiosk Requests.bare 2 "Location deleted");
    [by_computation|reflexivity|reflexivity|by_computation].
Defined.

Lemma update_location_outcome_witness :
  update_location Requests.with_kiosk 5 Requests.bare
  = Aborted (HTTPException 404 "Location not found") /\
  exists db', update_location Requests.with_kiosk 2 Requests.bare
              = Committed (2%Z, Requests.bare) db' /\
    get_locations db'
    = map (fun l => if Z.eqb (l_id l) 2 then location_of 2 Requests.bare else l)
        (get_locations Requests.with_kiosk).
Proof.
  destruct (update_location_outcome Requests.with_kiosk 5 Requests.bare) as [Hmissing _];
    [unfold sqlite_int; lia|].
  destruct (update_location_outcome Requests.with_kiosk 2 Requests.bare) as [_ Hfound];
    [unfold sqlite_int; lia|].
  split; [apply Hmissing; vm_compute; intros [H|[H|[]]]; discriminate|].
  destruct Hfound as (db' & Hrun & Hget & _); [vm_compute; auto|by_computation|].
  exists db'. split; [exact Hrun|exact Hget].
Defined.

Lemma update_location_twice_witness :
  update_location
    (db_after Requests.with_kiosk (update_location Requests.with_kiosk 2 Requests.bare))
    2 Requests.bare
  = Committed (2%Z, Requests.bare)
      (db_after Requests.with_kiosk (update_location Requests.with_kiosk 2 Requests.bare)).
Proof.
  apply (update_location_twice Requests.with_kiosk). reflexivity.
Defined.

Lemma create_criteria_outcome_witness :
  create_criteria Requests.with_kiosk Requests.rent = Aborted IntegrityError /\
  exists db', create_criteria Requests.with_kiosk Requests.rent_as_c2
              = Committed Requests.rent_as_c2 db' /\
    get_locations db' = get_locations Requests.with_kiosk.
Proof.
  destruct (create_criteria_outcome Requests.with_kiosk Requests.rent) as [Hused _].
  destruct (create_criteria_outcome Requests.with_kiosk Requests.rent_as_c2) as [_ Hfree].
  split.
  - apply Hused. vm_compute. auto.
  - destruct Hfree as (db' & Hrun & _ & Hget & _).
    + vm_compute. intros [H|[]]. discriminate.
    + exists db'. split; [exact Hrun|exact Hget].
Defined.

Lemma delete_criteria_outcome_witness :
  exists db', delete_criteria Requests.with_kiosk "c1" = Committed "Criteria deleted" db' /\
    get_locations db' = map (without_criterion "c1") (get_locations Requests.with_kiosk) /\
    criterion_values db' "c1" = [].
Proof.
  destruct (delete_criteria_outcome Requests.with_kiosk "c1") as [_ Hfound].
  destruct Hfound as (db' & Hrun & _ & Hget & Hvals & _); [vm_compute; auto|].
  exists db'. split; [exact Hrun|]. split; [exact Hget|exact Hvals].
Defined.

Lemma update_criteria_outcome_witness :
  fetch_value Requests.renamed 1 "rent" = Some 7 /\
  fetch_value Requests.renamed 1 "c1" = None /\
  schema_holds Requests.renamed.
Proof.
  destruct (update_criteria_outcome Requests.with_kiosk "c1" Requests.rent_renamed)
    as (_ & _ & Hcommit).
  destruct (Hcommit Requests.rent_renamed Requests.renamed eq_refl)
    as (_ & _ & _ & Hvalues & Hschema).
  split; [rewrite Hvalues; reflexivity|]. split; [rewrite Hvalues; reflexivity|].
  apply Hschema. by_computation.
Defined.

Lemma update_criteria_keeps_wp_witness :
  calculate_wp Scenario.interpolated_pow Requests.renamed
  = calculate_wp Scenario.interpolated_pow Requests.with_kiosk.
Proof.
  apply (update_criteria_keeps_wp Scenario.interpolated_pow Requests.with_kiosk
           Requests.renamed "c1" Requests.rent_renamed Requests.rent_renamed).
  - reflexivity.
  - intros r0 [<-|[]] _. split; reflexivity.
  - intros _. reflexivity.
Defined.

Lemma update_criteria_integrity_error_witness :
  update_criteria Requests.with_shop "c1" Requests.rent_as_c2 = Aborted IntegrityError.
Proof.
  apply (update_criteria_integrity_error Requests.with_shop "c1" Requests.rent_as_c2).
  split; [vm_compute; auto|]. split; [discriminate|].
  right. exists 1%Z. split; eexists; reflexivity.
Defined.

Lemma reachable_schema_witness : schema_holds Requests.with_kiosk.
Proof.
  apply reachable_schema.
  apply (reach_create_location Requests.with_shop Requests.with_kiosk Requests.kiosk
           (2%Z, Requests.kiosk)); [|reflexivity].
  apply (reach_create_location Requests.with_rent Requests.with_shop Requests.shop
           (1%Z, Requests.shop)); [|reflexivity].
  apply (reach_create_criteria init_db Requests.with_rent Requests.rent Requests.rent);
    [apply reach_init|reflexivity].
Defined.

Lemma get_locations_fetch_value_witness :
  l_criteria (location_of 1 Requests.shop) !! "c1" = fetch_value Requests.with_kiosk 1 "c1".
Proof.
  apply (get_locations_fetch_value Requests.with_kiosk (location_of 1 Requests.shop) "c1").
  - by_computation.
  - left. vm_compute. reflexivity.
Defined.

Lemma delete_location_twice_witness :
  delete_location Requests.with_shop 2 = Aborted (HTTPException 404 "Location not found").
Proof.
  apply (delete_location_twice Requests.with_kiosk Requests.with_shop 2 "Location deleted").
  reflexivity.
Defined.

Lemma saw_key_error_witness : calculate_saw Requests.with_bare = Raise KeyError.
Proof.
  apply (proj1 (saw_key_error Requests.with_bare)).
  split; [discriminate|]. split; [discriminate|reflexivity].
Defined.

Lemma wp_nonpositive_total_witness :
  calculate_wp Scenario.interpolated_pow Requests.debts
  = Ok [ {| wp_location := "A"; wp_score := 0; wp_s := -2 |};
         {| wp_location := "B"; wp_score := 0; wp_s := -3 |} ].
Proof.
  apply (wp_nonpositive_total Scenario.interpolated_pow Requests.debts
           [ {| item_location := "A"; item_s := -2 |};
             {| item_location := "B"; item_s := -3 |} ]).
  - reflexivity.
  - discriminate.
  - discriminate.
  - vm_compute. discriminate.
Defined.

Lemma saw_cost_range_witness :
  exists n, saw_entry Scenario.cost_db 2 "c1" = Ok (Some n) /\ 0 <= n <= 1 /\ n == 1.
Proof.
  destruct (saw_cost_range Scenario.cost_db (Scenario.loc 2 "B")
              (Scenario.crit "c1" 1 "cost") 10 5)
    as (n & He & Hrange & Hone & _).
  - by_computation.
  - simpl. auto.
  - simpl. auto.
  - discriminate.
  - reflexivity.
  - exists n. split; [exact He|]. split; [exact Hrange|]. apply Hone; reflexivity.
Defined.

Lemma saw_score_range_witness :
  0 <= 0.5000 <= round4 (Qsum (map crit_weight (criteria Scenario.benefit_db))).
Proof.
  apply (saw_score_range Scenario.benefit_db _
           {| saw_location := "B"; saw_score := 0.5000;
              saw_details := {[ "c1" := 5 / 10 ]} |} saw_benefit_scenario).
  - by_computation.
  - intros c [<-|[]]. vm_compute. discriminate.
  - intros x [<-|[<-|[]]]; vm_compute; discriminate.
  - right. left. reflexivity.
Defined.
